(** * UD-MIS by simulated annealing: the energy model of Task1.ipynb

    A shallow embedding of the [UDMIS] class and of the annealing cell of
    [Week2_Rydberg_Atoms/Task1.ipynb], and the properties of the
    specification that concern them.

    Numbers.  Python [int]s are [Z].  The coordinates of the vertices are
    binary64 floats, the kernel's [float]: the graph builder subtracts,
    squares, adds, takes a root and compares them as the hardware does,
    and its overflow is the exception Python raises.  The other floats of
    the notebook ([u], energies, temperatures, the draws of the generator)
    are kept exact, as rationals [Q]: the statements about them are ones
    of exact arithmetic.  The counters of [energy] and [energy_diff] are
    NumPy [int64]s; they count pairs and vertices of an in-memory array
    and are modelled as [Z] without wrap-around.

    Errors.  A raised Python exception is the [Raise] branch of [result].

    Scope.  The methods of [UDMIS] refer to [u] and [graph] by bare name:
    they read the notebook's module-level variables, not the attributes
    [self.u] and [self.graph].  Every method therefore takes the global
    scope at the time of the call as an argument.

    The base class [AbstractUDMIS] (abstract_udmis.py), which provides
    [mc_step], is not among the sources: the annealing loop takes the step
    engine as a parameter, and the step itself is modelled from the
    specification. *)

From Stdlib Require Import ZArith QArith Qround Lia List Bool Arith.
From Stdlib Require Import PrimFloat.
From Stdlib Require FloatOps SpecFloat.
From Stdlib Require Lqa.
Import ListNotations.

Set Implicit Arguments.

(* A decimal literal denotes the nearest binary64 value, as in Python. *)
Set Warnings "-inexact-float".

(** * The program *)

(** ** Exceptions and the error monad *)

(** The exceptions the program can raise. *)
Inductive exn : Type :=
| IndexError
| OverflowError
| ZeroDivisionError
| ValueError.

(** A returned value or a raised exception. *)
Inductive result (A : Type) : Type :=
| Ok (a : A)
| Raise (e : exn).

Arguments Ok {A} a.
Arguments Raise {A} e.

(** Sequencing: an exception ends the computation. *)
Definition bind {A B : Type} (c : result A) (k : A -> result B) : result B :=
  match c with
  | Ok a => k a
  | Raise e => Raise e
  end.

Declare Scope py_scope.
Delimit Scope py_scope with py.
Notation "x <- c ;; k" := (bind c (fun x => k))
  (at level 61, c at next level, right associativity) : py_scope.
Notation "' p <- c ;; k" := (bind c (fun p => k))
  (at level 61, p pattern, c at next level, right associativity) : py_scope.
Open Scope py_scope.

(** [for x in xs: s = body x s], stopping at the first exception. *)
Fixpoint for_each {X St : Type} (xs : list X) (body : X -> St -> result St) (s : St)
  : result St :=
  match xs with
  | [] => Ok s
  | x :: xs' => s' <- body x s ;; for_each xs' body s'
  end.

(** [range(start, stop)]: empty when [stop <= start]. *)
Definition range (start stop : Z) : list Z :=
  map (fun k => (start + Z.of_nat k)%Z) (seq 0 (Z.to_nat (stop - start))).

(** ** Indexing, as NumPy arrays and Python lists do it

    An index [i] with [0 <= i < len] is itself and one with
    [-len <= i < 0] counts from the end.  Any other index raises.  On a
    Python list the exception is [IndexError].  On a NumPy array an
    integer that does not fit the signed 64-bit index type is first turned
    into an array: one in [[2^63, 2^64)] becomes an unsigned 64-bit scalar
    whose conversion to an index raises [OverflowError]; every other index
    out of range ends in [IndexError]. *)

(** The exception of a NumPy array for the out-of-range index [i]. *)
Definition out_of_bounds (i : Z) : exn :=
  if ((2 ^ 63 <=? i) && (i <? 2 ^ 64))%Z then OverflowError else IndexError.

(** The position an index denotes in an array of length [len]. *)
Definition norm_index (len : nat) (i : Z) : result nat :=
  if ((0 <=? i) && (i <? Z.of_nat len))%Z then Ok (Z.to_nat i)
  else if ((- Z.of_nat len <=? i) && (i <? 0))%Z then Ok (Z.to_nat (Z.of_nat len + i))
  else Raise (out_of_bounds i).

(** [a[i]] on a NumPy array *)
Definition getitem {A : Type} (l : list A) (i : Z) : result A :=
  k <- norm_index (length l) i ;;
  match nth_error l k with
  | Some x => Ok x
  | None => Raise IndexError
  end.

(** [l[i]] on a Python list: the same positions, and [IndexError] for
    every index out of range. *)
Definition list_getitem {A : Type} (l : list A) (i : Z) : result A :=
  match getitem l i with
  | Ok x => Ok x
  | Raise _ => Raise IndexError
  end.

(** The sequence with position [k] replaced (unchanged when there is none). *)
Fixpoint update {A : Type} (l : list A) (k : nat) (x : A) : list A :=
  match l, k with
  | [], _ => []
  | _ :: l', O => x :: l'
  | y :: l', S k' => y :: update l' k' x
  end.

(** [a[i] = x] *)
Definition setitem {A : Type} (l : list A) (i : Z) (x : A) : result (list A) :=
  k <- norm_index (length l) i ;; Ok (update l k x).

(** Two-dimensional boolean arrays, row by row. *)
Definition matrix : Type := list (list bool).

(** [np.zeros((n, m), dtype=bool)] *)
Definition np_zeros (n m : nat) : matrix := repeat (repeat false m) n.

(** [a[i, j]] *)
Definition getitem2 (a : matrix) (i j : Z) : result bool :=
  row <- getitem a i ;; getitem row j.

(** [a[i, j] = v] *)
Definition setitem2 (a : matrix) (i j : Z) (v : bool) : result matrix :=
  row <- getitem a i ;;
  row' <- setitem row j v ;;
  setitem a i row'.

(** [np.where(row)[0]]: the indices at which a boolean row is true. *)
Definition np_where (row : list bool) : list Z :=
  map Z.of_nat (filter (fun j => nth j row false) (seq 0 (length row))).

(** [a[idx]] for an index array [idx]. *)
Fixpoint take {A : Type} (a : list A) (idx : list Z) : result (list A) :=
  match idx with
  | [] => Ok []
  | i :: idx' => x <- getitem a i ;; xs <- take a idx' ;; Ok (x :: xs)
  end.

(** The builtin [sum] over booleans: [0 + b1 + b2 + ...], an integer. *)
Definition sum (bs : list bool) : Z :=
  fold_left (fun acc b => (acc + Z.b2z b)%Z) bs 0%Z.

(** ** Numbers and the random generator

    NumPy's global generator is a stream of uniform draws from [0, 1). *)

(** [x / y] on Python numbers. *)
Definition truediv (x y : Q) : result Q :=
  if Qeq_bool y 0 then Raise ZeroDivisionError else Ok (x / y)%Q.

(** [x < y] on exact numbers. *)
Definition Qlt_bool (x y : Q) : bool := negb (Qle_bool y x).

(** The state of the generator: the draws to come. *)
Definition Rng : Type := nat -> Q.

(** [np.random.rand(n)]: the next [n] draws. *)
Definition np_random_rand (rng : Rng) (n : nat) : list Q * Rng :=
  (map rng (seq 0 n), fun k => rng (n + k)%nat).

(** [np.random.randint(high)]: [ValueError] unless [high] is positive,
    and otherwise an integer of [[0, high)].  The sampler is abstracted:
    the next draw [r] of the stream selects [floor (r * high)].  NumPy
    samples by masked rejection on the words of its generator, which is
    not modelled, so that which integer comes out and how far the
    generator advances are those of this abstraction, not NumPy's. *)
Definition np_random_randint (rng : Rng) (high : Z) : result (Z * Rng) :=
  if (high <=? 0)%Z then Raise ValueError
  else Ok (Qfloor (rng 0%nat * inject_Z high), fun k => rng (S k)).

(** ** The notebook's global scope and the [UDMIS] class *)

(** The coordinates [(x, y)] of a vertex, a tuple of two floats. *)
Definition point : Type := (float * float)%type.

(** The two module-level variables the methods refer to by bare name. *)
Record Globals : Type := {
  global_u : Q;
  global_graph : list point
}.

(** The attributes of an instance. *)
Record UDMIS : Type := {
  u : Q;
  graph : list point;
  num_vertices : nat;
  occupations : list bool;
  edges : matrix
}.

(** [x ** 2.] on a Python float: the rounded square, with
    [OverflowError] when a finite [x] has an infinite square.  An infinite
    or undefined [x] goes through, and underflow is not an error.  (Python
    calls the platform's [pow], taken here to round the square
    correctly.) *)
Definition float_pow2 (x : float) : result float :=
  let y := (x * x)%float in
  if is_finite x && is_infinity y then Raise OverflowError else Ok y.

(** [np.sqrt((x_i - x_j)**2. + (y_i - y_j)**2.)], the value the builder
    names [dij]: every operation rounds to binary64. *)
Definition dij (p q : point) : result float :=
  let '(x_i, y_i) := p in
  let '(x_j, y_j) := q in
  a <- float_pow2 (x_i - x_j) ;;
  b <- float_pow2 (y_i - y_j) ;;
  Ok (sqrt (a + b)).

Section Methods.

(** The global scope at the time of the call. *)
Variable g : Globals.

(** [UDMIS.find_edges]: [self] is read for [num_vertices] only, the
    coordinates come from the global [graph]. *)
Definition find_edges (self_num_vertices : nat) : result matrix :=
  let n := Z.of_nat self_num_vertices in
  let edges := np_zeros self_num_vertices self_num_vertices in
  for_each (range 0 (n - 1)) (fun i edges =>
    p_i <- list_getitem (global_graph g) i ;;
    for_each (range (i + 1) n) (fun j edges =>
      p_j <- list_getitem (global_graph g) j ;;
      d <- dij p_i p_j ;;
      if (d <=? 1)%float then
        edges <- setitem2 edges i j true ;;
        setitem2 edges j i true
      else Ok edges) edges) edges.

(** [UDMIS.__init__].  [super().__init__()] has nothing to run (the base
    class defines no constructor) and the [print] is left out. *)
Definition __init__ (rng : Rng) (u0 : Q) (graph0 : list point)
  : result (UDMIS * Rng) :=
  let num_vertices0 := length graph0 in
  let '(draws, rng') := np_random_rand rng num_vertices0 in
  let occupations0 := map (fun r => Qlt_bool r 0.5) draws in
  edges0 <- find_edges num_vertices0 ;;
  Ok ({| u := u0; graph := graph0; num_vertices := num_vertices0;
         occupations := occupations0; edges := edges0 |}, rng').

(** [UDMIS.energy] *)
Definition energy (self : UDMIS) : result Q :=
  let n := Z.of_nat (num_vertices self) in
  '(interaction_term, vertex_term) <-
    for_each (range 0 (n - 1)) (fun i '(interaction_term, vertex_term) =>
      interaction_term <-
        for_each (range (i + 1) n) (fun j interaction_term =>
          e <- getitem2 (edges self) i j ;;
          if e then
            n_i <- getitem (occupations self) i ;;
            n_j <- getitem (occupations self) j ;;
            Ok (interaction_term + Z.b2z (n_i && n_j))%Z
          else Ok interaction_term) interaction_term ;;
      n_i <- getitem (occupations self) i ;;
      Ok (interaction_term, (vertex_term + Z.b2z n_i)%Z)) (0%Z, 0%Z) ;;
  n_last <- getitem (occupations self) (n - 1) ;;
  let vertex_term := (vertex_term + Z.b2z n_last)%Z in
  Ok (global_u g * inject_Z interaction_term - inject_Z vertex_term)%Q.

(** [UDMIS.energy_diff] *)
Definition energy_diff (self : UDMIS) (i : Z) : result Q :=
  row <- getitem (edges self) i ;;
  let connections := np_where row in
  adjacent <- take (occupations self) connections ;;
  let num_adjacent_occupied := sum adjacent in
  n_i <- getitem (occupations self) i ;;
  if n_i then
    let vertex_term_change := 1%Q in
    let interaction_term_change := (- global_u g * inject_Z num_adjacent_occupied)%Q in
    Ok (interaction_term_change + vertex_term_change)%Q
  else
    let vertex_term_change := (-1)%Q in
    let interaction_term_change := (global_u g * inject_Z num_adjacent_occupied)%Q in
    Ok (interaction_term_change + vertex_term_change)%Q.

End Methods.

(** [UDMIS.rand_vertex] *)
Definition rand_vertex (self : UDMIS) (rng : Rng) : result (Z * Rng) :=
  np_random_randint rng (Z.of_nat (num_vertices self)).

(** [self.occupations = occ] *)
Definition with_occupations (self : UDMIS) (occ : list bool) : UDMIS :=
  {| u := u self; graph := graph self; num_vertices := num_vertices self;
     occupations := occ; edges := edges self |}.

(** [self.u, self.graph = u1, graph1] *)
Definition with_attributes (self : UDMIS) (u1 : Q) (graph1 : list point) : UDMIS :=
  {| u := u1; graph := graph1; num_vertices := num_vertices self;
     occupations := occupations self; edges := edges self |}.

(** ** The Metropolis step of the base class *)

(** Modelled from the spec: step 4 of the Metropolis step (section 4.3),
    "toggle [n_i] in place".  The stepping routine that does it belongs to
    the base class, in abstract_udmis.py, which is not among the sources. *)
Definition toggle (self : UDMIS) (i : Z) : result UDMIS :=
  n_i <- getitem (occupations self) i ;;
  occupations' <- setitem (occupations self) i (negb n_i) ;;
  Ok (with_occupations self occupations').

Section Metropolis.

(** The exponential, whose values are in general irrational. *)
Variable exp : Q -> Q.

(** The global scope at the time of the call. *)
Variable g : Globals.

(** Modelled from the spec: the acceptance rule of the Metropolis step
    (section 4.3, step 3, and its degenerate case), whose code is in
    abstract_udmis.py, not among the sources.  A flip with [dE <= 0] is
    accepted; one with [dE > 0] is rejected when [T <= 0], and accepted
    otherwise when a uniform draw is below [exp (- dE / T)]. *)
Definition accept (T dE : Q) (rng : Rng) : result (bool * Rng) :=
  if Qle_bool dE 0 then Ok (true, rng)
  else if Qle_bool T 0 then Ok (false, rng)
  else
    x <- truediv (- dE) T ;;
    Ok (Qlt_bool (rng 0%nat) (exp x), fun k => rng (S k)).

(** Modelled from the spec: the Metropolis step [step(T)] of section
    4.3 (steps 1 to 5), with the total energy recomputed at the end. *)
Definition step (T : Q) (st : UDMIS * Rng) : result (Q * (UDMIS * Rng)) :=
  let '(self, rng) := st in
  '(i, rng) <- rand_vertex self rng ;;
  dE <- energy_diff g self i ;;
  '(accepted, rng) <- accept T dE rng ;;
  self <- (if accepted : bool then toggle self i else Ok self) ;;
  E <- energy g self ;;
  Ok (E, (self, rng)).

End Metropolis.

(** ** The annealing cell *)

Section Annealing.

(** [x ** y] on floats, whose values are in general irrational. *)
Variable pow : Q -> Q -> Q.

(** The state the loop acts on, the inherited [mc_step(T)] (it returns
    an energy and updates the state) and the occupations read for
    printing.  The base class is in abstract_udmis.py, not among the
    sources. *)
Variable State : Type.
Variable mc_step : Q -> State -> result (Q * State).
Variable occupations_of : State -> list bool.

(** [np.arange(n)] *)
Definition np_arange (n : Z) : list Z := range 0 n.

(** [T = T_i * ((T_f/T_i) ** (t/N))] for [t = np.arange(N+1)].  The
    quotient of the two scalars is Python's, that of the array by [N] is
    NumPy's and does not raise.  (For [N = 0] NumPy's quotient is not a
    number, which [Q] cannot hold; the loop then reads no entry of the
    schedule.) *)
Definition temperatures (T_i T_f : Q) (N : nat) : result (list Q) :=
  let t := np_arange (Z.of_nat N + 1) in
  ratio <- truediv T_f T_i ;;
  Ok (map (fun t_k => T_i * pow ratio (inject_Z t_k / inject_Z (Z.of_nat N)))%Q t).

(** A printed line: [t], [E] and the occupations. *)
Definition line : Type := (Z * Q * list bool)%type.

(** One round of the loop once the temperature is known. *)
Definition round (temp : Q) (t : Z) (acc : State * list line)
  : result (State * list line) :=
  let '(udmis, out) := acc in
  '(E, udmis) <- mc_step temp udmis ;;
  if (t mod 100 =? 0)%Z then Ok (udmis, out ++ [(t, E, occupations_of udmis)])
  else Ok (udmis, out).

(** The annealing cell: the schedule, then [for t in range(N)]. *)
Definition anneal (T_i T_f : Q) (N : nat) (udmis : State)
  : result (State * list line) :=
  T <- temperatures T_i T_f N ;;
  for_each (range 0 (Z.of_nat N)) (fun t acc =>
    temp <- getitem T t ;;
    round temp t acc) (udmis, []).

(** The geometric interpolation of the specification. *)
Definition temperature (T_i T_f : Q) (N : nat) (t : Z) : Q :=
  (T_i * pow (T_f / T_i) (inject_Z t / inject_Z (Z.of_nat N)))%Q.

End Annealing.

(** A step engine that only records the temperatures it is called with. *)
Definition recording_step (T : Q) (calls : list Q) : result (Q * list Q) :=
  Ok (0%Q, calls ++ [T]).

(** ** The notebook's data *)

(** [u = 1.35] and [graph = [...]], as the notebook assigns them. *)
Definition notebook_globals : Globals := {|
  global_u := 1.35;
  global_graph :=
    [ (0.3461717838632017, 1.4984640297338632);
      (0.6316400411846113, 2.5754677320579895);
      (1.3906262250927481, 2.164978861396621);
      (0.66436005100802, 0.6717919819739032);
      (0.8663329771713457, 3.3876341010035995);
      (1.1643107343501296, 1.0823066243402013) ]%float
|}.

(** A fixed stream of draws, for running the model on examples. *)
Definition rng0 : Rng := fun k => if Nat.even k then 0.75%Q else 0.25%Q.

(** The instance the notebook builds, [udmis = UDMIS(u, graph)], when the
    generator draws [rng0]. *)
Definition udmis : UDMIS := {|
  u := 1.35;
  graph := global_graph notebook_globals;
  num_vertices := 6;
  occupations := [false; true; false; true; false; true];
  edges :=
    [[false; false; false; true; false; true];
     [false; false; true; false; true; false];
     [false; true; false; false; false; false];
     [true; false; false; false; false; true];
     [false; true; false; false; false; false];
     [true; false; false; true; false; false]]
|}.


(** A global scope with two points so far apart that the square of the
    difference of their abscissas is not a finite float. *)
Definition far_globals : Globals := {|
  global_u := 1.35;
  global_graph := [(0, 0); (1e200, 0)]%float
|}.

(** A global scope with [u = 1.35] and two points at distance one half. *)
Definition other_globals : Globals := {|
  global_u := 1.35;
  global_graph := [(0, 0); (0.5, 0)]%float
|}.

(** The instance [UDMIS(2, [(0, 0), (2, 0)])] built in that scope when
    every draw is [0.25]: its attributes differ from the globals. *)
Definition other_udmis : UDMIS := {|
  u := 2;
  graph := [(0, 0); (2, 0)]%float;
  num_vertices := 2;
  occupations := [true; true];
  edges := [[false; true]; [true; false]]
|}.

(** * The vocabulary of the properties *)

(** ** Views of the arrays *)

(** The occupation of vertex [k] ([false] outside the array). *)
Definition occ_at (occ : list bool) (k : nat) : bool := nth k occ false.

(** The adjacency of [a] and [b] ([false] outside the array). *)
Definition edge (E : matrix) (a b : nat) : bool := nth b (nth a E []) false.

(** An [n] by [n] array. *)
Definition shape (n : nat) (E : matrix) : Prop :=
  length E = n /\ forall a, (a < n)%nat -> length (nth a E []) = n.

(** [update] at two levels: the array with entry [(a, b)] replaced. *)
Definition update2 (E : matrix) (a b : nat) (v : bool) : matrix :=
  update E a (update (nth a E []) b v).

(** An instance whose arrays have the sizes [__init__] gives them. *)
Definition well_formed (self : UDMIS) : Prop :=
  shape (num_vertices self) (edges self) /\
  length (occupations self) = num_vertices self.

(** The scope in which the bare names [u] and [graph] denote the
    attributes of the instance. *)
Definition attributes (self : UDMIS) : Globals :=
  {| global_u := u self; global_graph := graph self |}.



(** The exceptions of indexing and of float arithmetic. *)
Definition lookup_error (e : exn) : bool :=
  match e with
  | IndexError | OverflowError => true
  | ZeroDivisionError | ValueError => false
  end.

(** A computation that raises nothing but [IndexError] or
    [OverflowError]. *)
Definition lookup_only {A : Type} (c : result A) : Prop :=
  forall e, c = Raise e -> lookup_error e = true.

(** ** The energy as sums *)

(** Sums of integers over a list of indices, or of pairs of indices. *)
Definition sumZ {A : Type} (f : A -> Z) (l : list A) : Z :=
  fold_right (fun x acc => (f x + acc)%Z) 0%Z l.

Section Sums.

(** An adjacency relation and an occupation, as functions of indices. *)
Variable e : nat -> nat -> bool.
Variable o : nat -> bool.

(** What the pair [(a, b)] adds to the interaction term. *)
Definition pair_term (a b : nat) : Z :=
  if e a b then Z.b2z (o a && o b) else 0%Z.

(** The interaction term as [energy] accumulates it: rows [a] below
    [n - 1], columns [b] from [a + 1] to [n - 1]. *)
Definition interaction_sum (n : nat) : Z :=
  sumZ (fun a => sumZ (pair_term a) (seq (S a) (n - S a))) (seq 0 (n - 1)).

(** The vertex term: the number of occupied vertices. *)
Definition vertex_sum (n : nat) : Z :=
  sumZ (fun a => Z.b2z (o a)) (seq 0 n).

(** The number of occupied neighbours of [i]. *)
Definition occupied_neighbours (i n : nat) : Z :=
  sumZ (fun b => Z.b2z (e i b && o b)) (seq 0 n).

End Sums.

(** The pairs [(i, j)] with [i < j < n], each once. *)
Definition upper_pairs (n : nat) : list (nat * nat) :=
  flat_map (fun i => map (pair i) (seq (S i) (n - S i))) (seq 0 n).

(** The unordered adjacent pairs. *)
Definition adjacent_pairs (E : matrix) (n : nat) : list (nat * nat) :=
  filter (fun '(i, j) => edge E i j) (upper_pairs n).

(** The occupation [o] with vertex [i] toggled. *)
Definition flipped (o : nat -> bool) (i a : nat) : bool :=
  if (a =? i)%nat then negb (o i) else o a.

(** The change of the occupation number of [i] when it is toggled. *)
Definition delta (o : nat -> bool) (i : nat) : Z := if o i then (-1)%Z else 1%Z.

(** What the neighbour [b] of [i] adds to [occupied_neighbours]. *)
Definition neighbour_term (e : nat -> nat -> bool) (o : nat -> bool) (i b : nat) : Z :=
  Z.b2z (e i b && o b).

(** ** The progress of the graph builder *)

(** Both vertices have coordinates in [G], and the builder's [dij] of
    them is a float at most [1.0]. *)
Definition close (G : list point) (a b : nat) : bool :=
  match nth_error G a, nth_error G b with
  | Some p, Some q =>
      match dij p q with
      | Ok d => (d <=? 1)%float
      | Raise _ => false
      end
  | _, _ => false
  end.

(** Both vertices have coordinates in [G] and [dij] returns on them. *)
Definition measured (G : list point) (a b : nat) : bool :=
  match nth_error G a, nth_error G b with
  | Some p, Some q =>
      match dij p q with
      | Ok _ => true
      | Raise _ => false
      end
  | _, _ => false
  end.

(** [dij] returns on every pair the loops of [find_edges] visit. *)
Definition all_measured (G : list point) (n : nat) : bool :=
  forallb (fun '(a, b) => measured G a b) (upper_pairs n).

(** The pair [(a, b)] is visited before the loops of [find_edges] reach
    row [i], column [j]. *)
Definition scanned (i j a b : nat) : bool :=
  (a <? i)%nat || ((a =? i)%nat && (b <? j)%nat).

(** The array when the loops reach row [i], column [j]. *)
Definition edges_upto (G : list point) (n i j : nat) (E : matrix) : Prop :=
  shape n E /\
  (forall a b, (a < n)%nat -> (b < n)%nat ->
     edge E a b = ((a <? b)%nat && scanned i j a b && close G a b)
                  || ((b <? a)%nat && scanned i j b a && close G b a)) /\
  (forall a b, (a < b < n)%nat -> scanned i j a b = true ->
     measured G a b = true).

(** Case analysis on every comparison of naturals in the goal. *)
Ltac nat_cases :=
  repeat match goal with
         | |- context [(?a =? ?b)%nat] => destruct (Nat.eqb_spec a b); try lia
         | |- context [(?a <? ?b)%nat] => destruct (Nat.ltb_spec a b); try lia
         end.

(** ** Configurations *)

(** The occupation array with entry [i] negated. *)
Definition negated_at (occ : list bool) (i : nat) : list bool :=
  update occ i (negb (occ_at occ i)).

(** The number of occupied vertices. *)
Definition occupied_count (occ : list bool) (n : nat) : Z :=
  Z.of_nat (length (filter (occ_at occ) (seq 0 n))).

(** No two adjacent vertices are both occupied. *)
Definition independent (E : matrix) (occ : list bool) (n : nat) : Prop :=
  forall a b, (a < n)%nat -> (b < n)%nat ->
              edge E a b = true -> occ_at occ a = true -> occ_at occ b = false.

(** Every unoccupied vertex has an occupied neighbour. *)
Definition maximal (E : matrix) (occ : list bool) (n : nat) : Prop :=
  forall a, (a < n)%nat -> occ_at occ a = false ->
            exists b, (b < n)%nat /\ edge E a b = true /\ occ_at occ b = true.

(** The same two properties, decided. *)
Definition independentb (E : matrix) (occ : list bool) (n : nat) : bool :=
  forallb (fun a =>
    forallb (fun b => negb (edge E a b && occ_at occ a && occ_at occ b)) (seq 0 n))
    (seq 0 n).

Definition maximalb (E : matrix) (occ : list bool) (n : nat) : bool :=
  forallb (fun a =>
    occ_at occ a || existsb (fun b => edge E a b && occ_at occ b) (seq 0 n))
    (seq 0 n).

(** Two occupation arrays agree at [i] and at every neighbour of [i]. *)
Definition same_neighbourhood (E : matrix) (i n : nat) (occ occ' : list bool) : bool :=
  Bool.eqb (occ_at occ i) (occ_at occ' i)
  && forallb (fun j => implb (edge E i j) (Bool.eqb (occ_at occ j) (occ_at occ' j)))
             (seq 0 n).

(** The global scope with another [graph]. *)
Definition with_global_graph (g : Globals) (G : list point) : Globals :=
  {| global_u := global_u g; global_graph := G |}.

(** The sum of a list of numbers. *)
Definition sumQ (l : list Q) : Q := fold_right Qplus 0%Q l.

(** The values of [energy_diff] met when the vertices of [flips] are
    negated one after the other, and the instance reached. *)
Fixpoint deltas (g : Globals) (self : UDMIS) (flips : list nat)
  : result (list Q * UDMIS) :=
  match flips with
  | [] => Ok ([], self)
  | i :: flips' =>
      dE <- energy_diff g self (Z.of_nat i) ;;
      '(ds, self') <- deltas g (with_occupations self (negated_at (occupations self) i))
                             flips' ;;
      Ok (dE :: ds, self')
  end.

(** The step indices at which the annealing cell prints. *)
Definition printed_steps (N : nat) : list Z :=
  filter (fun t => (t mod 100 =? 0)%Z) (range 0 (Z.of_nat N)).

(** * Lemmas *)

(** ** The error monad and loops *)

Lemma bind_Ok {A B : Type} (c : result A) (k : A -> result B) (b : B) :
  bind c k = Ok b -> exists a, c = Ok a /\ k a = Ok b.
Proof.
  destruct c as [a|e]; simpl; intros H; [exists a; auto | discriminate].
Qed.

Lemma for_each_map {X Y St : Type} (f : X -> Y) (l : list X)
      (body : Y -> St -> result St) (s : St) :
  for_each (map f l) body s = for_each l (fun x => body (f x)) s.
Proof.
  revert s; induction l as [|x l IH]; intros s; simpl; [reflexivity|].
  destruct (body (f x) s); simpl; auto.
Qed.

Lemma for_each_ext {X St : Type} (l : list X) (body body' : X -> St -> result St) (s : St) :
  (forall x t, In x l -> body x t = body' x t) ->
  for_each l body s = for_each l body' s.
Proof.
  revert s; induction l as [|x l IH]; intros s H; simpl; [reflexivity|].
  rewrite (H x s) by (left; reflexivity).
  destruct (body' x s); simpl; auto.
  apply IH. intros y t Hy. apply H. right; exact Hy.
Qed.

(** Partial correctness of a counted loop: an invariant indexed by the
    loop counter, kept by every iteration that returns. *)
Lemma for_each_seq_inv {St : Type} (P : nat -> St -> Prop)
      (body : nat -> St -> result St) (len a : nat) (s s' : St) :
  P a s ->
  (forall k t t', (a <= k < a + len)%nat -> P k t -> body k t = Ok t' -> P (S k) t') ->
  for_each (seq a len) body s = Ok s' ->
  P (a + len)%nat s'.
Proof.
  revert a s. induction len as [|len IH]; intros a s H0 Hstep Hrun; simpl in Hrun.
  - inversion Hrun; subst. now rewrite Nat.add_0_r.
  - apply bind_Ok in Hrun. destruct Hrun as [t [Hb Hrest]].
    replace (a + S len)%nat with (S a + len)%nat by lia.
    apply (IH (S a) t).
    + apply (Hstep a s t); [lia | assumption | assumption].
    + intros k t1 t2 Hk. apply Hstep. lia.
    + exact Hrest.
Qed.

(** Total correctness: every iteration returns and keeps the invariant. *)
Lemma for_each_seq_total {St : Type} (P : nat -> St -> Prop)
      (body : nat -> St -> result St) (len a : nat) (s : St) :
  P a s ->
  (forall k t, (a <= k < a + len)%nat -> P k t ->
               exists t', body k t = Ok t' /\ P (S k) t') ->
  exists s', for_each (seq a len) body s = Ok s' /\ P (a + len)%nat s'.
Proof.
  revert a s. induction len as [|len IH]; intros a s H0 Hstep; simpl.
  - exists s. rewrite Nat.add_0_r. auto.
  - destruct (Hstep a s) as [t [Hb Ht]]; [lia | assumption |].
    rewrite Hb; simpl.
    replace (a + S len)%nat with (S a + len)%nat by lia.
    apply IH; [assumption|].
    intros k t1 Hk. apply Hstep. lia.
Qed.

(** A counted loop that raises: the iteration that raised was reached
    with the invariant. *)
Lemma for_each_seq_raise {St : Type} (P : nat -> St -> Prop)
      (body : nat -> St -> result St) (len a : nat) (s : St) (e : exn) :
  P a s ->
  (forall k t t', (a <= k < a + len)%nat -> P k t -> body k t = Ok t' -> P (S k) t') ->
  for_each (seq a len) body s = Raise e ->
  exists k t, (a <= k < a + len)%nat /\ P k t /\ body k t = Raise e.
Proof.
  revert a s. induction len as [|len IH]; intros a s H0 Hstep Hrun; simpl in Hrun.
  - discriminate.
  - destruct (body a s) as [t|e'] eqn:Hb; simpl in Hrun.
    + destruct (IH (S a) t) as [k [t1 [Hk [HP Hraise]]]].
      * apply (Hstep a s); [lia | assumption | assumption].
      * intros k t1 t2 Hk. apply Hstep. lia.
      * exact Hrun.
      * exists k, t1. split; [lia|]. auto.
    + inversion Hrun; subst e'. exists a, s. split; [lia|]. auto.
Qed.

(** ** Ranges *)

Lemma map_of_nat_seq (a len b : nat) :
  map (fun k => (Z.of_nat a + Z.of_nat k)%Z) (seq b len) = map Z.of_nat (seq (a + b) len).
Proof.
  revert b. induction len as [|len IH]; intros b; simpl; [reflexivity|].
  f_equal; [lia|].
  rewrite IH. now rewrite Nat.add_succ_r.
Qed.

Lemma range_shift (a : nat) (stop : Z) :
  range (Z.of_nat a) stop = map Z.of_nat (seq a (Z.to_nat (stop - Z.of_nat a))).
Proof.
  unfold range. rewrite map_of_nat_seq. now rewrite Nat.add_0_r.
Qed.

(** [range(n - 1)] *)
Lemma range_pred (n : nat) :
  range 0 (Z.of_nat n - 1) = map Z.of_nat (seq 0 (n - 1)).
Proof.
  rewrite (range_shift 0). do 2 f_equal. lia.
Qed.

(** [range(i + 1, n)] *)
Lemma range_succ (i n : nat) :
  range (Z.of_nat i + 1) (Z.of_nat n) = map Z.of_nat (seq (S i) (n - S i)).
Proof.
  replace (Z.of_nat i + 1)%Z with (Z.of_nat (S i)) by lia.
  rewrite range_shift. do 2 f_equal. lia.
Qed.

(** ** Indexing *)

Lemma norm_index_nat (len k : nat) :
  (k < len)%nat -> norm_index len (Z.of_nat k) = Ok k.
Proof.
  intros H. unfold norm_index.
  replace ((0 <=? Z.of_nat k)%Z && (Z.of_nat k <? Z.of_nat len)%Z) with true.
  - now rewrite Nat2Z.id.
  - symmetry. apply andb_true_iff. split; [apply Z.leb_le | apply Z.ltb_lt]; lia.
Qed.

Lemma norm_index_nat_ge (len k : nat) :
  (len <= k)%nat -> norm_index len (Z.of_nat k) = Raise (out_of_bounds (Z.of_nat k)).
Proof.
  intros H. unfold norm_index.
  replace (Z.of_nat k <? Z.of_nat len)%Z with false
    by (symmetry; apply Z.ltb_ge; lia).
  replace (Z.of_nat k <? 0)%Z with false
    by (symmetry; apply Z.ltb_ge; lia).
  now rewrite !andb_false_r.
Qed.

(** At a natural index, [a[k]] is [nth_error]. *)
Lemma getitem_nat {A : Type} (l : list A) (k : nat) :
  getitem l (Z.of_nat k) =
  match nth_error l k with
  | Some x => Ok x
  | None => Raise (out_of_bounds (Z.of_nat k))
  end.
Proof.
  unfold getitem. destruct (Nat.lt_ge_cases k (length l)) as [H|H].
  - rewrite norm_index_nat by assumption. simpl.
    destruct (nth_error l k) eqn:Hk; [reflexivity|].
    apply nth_error_None in Hk. lia.
  - rewrite norm_index_nat_ge by assumption. simpl.
    apply nth_error_None in H. now rewrite H.
Qed.

Lemma getitem_nth {A : Type} (l : list A) (k : nat) (d : A) :
  (k < length l)%nat -> getitem l (Z.of_nat k) = Ok (nth k l d).
Proof.
  intros H. rewrite getitem_nat.
  now rewrite (nth_error_nth' l d H).
Qed.

(** On a Python list as well, with [IndexError] past the end. *)
Lemma list_getitem_nat {A : Type} (l : list A) (k : nat) :
  list_getitem l (Z.of_nat k) =
  match nth_error l k with Some x => Ok x | None => Raise IndexError end.
Proof.
  unfold list_getitem. rewrite getitem_nat.
  now destruct (nth_error l k).
Qed.

Lemma list_getitem_nth {A : Type} (l : list A) (k : nat) (d : A) :
  (k < length l)%nat -> list_getitem l (Z.of_nat k) = Ok (nth k l d).
Proof.
  intros H. rewrite list_getitem_nat.
  now rewrite (nth_error_nth' l d H).
Qed.

(** [a[-1]] on the empty array. *)
Lemma getitem_nil {A : Type} (i : Z) :
  getitem (@nil A) i = Raise (out_of_bounds i).
Proof.
  unfold getitem, norm_index. simpl.
  destruct (Z.leb_spec 0 i), (Z.ltb_spec i 0); simpl; try reflexivity; lia.
Qed.

Lemma length_update {A : Type} (l : list A) (k : nat) (x : A) :
  length (update l k x) = length l.
Proof.
  revert k; induction l as [|y l IH]; intros [|k]; simpl; auto.
Qed.

Lemma nth_update {A : Type} (l : list A) (k j : nat) (x d : A) :
  (k < length l)%nat ->
  nth j (update l k x) d = if (j =? k)%nat then x else nth j l d.
Proof.
  revert k j; induction l as [|y l IH]; intros k j H; simpl in H; [lia|].
  destruct k as [|k], j as [|j]; simpl; auto.
  apply IH. lia.
Qed.

Lemma setitem_nat {A : Type} (l : list A) (k : nat) (x : A) :
  (k < length l)%nat -> setitem l (Z.of_nat k) x = Ok (update l k x).
Proof.
  intros H. unfold setitem. now rewrite norm_index_nat.
Qed.

(** ** Two-dimensional arrays *)

Lemma shape_zeros (n : nat) : shape n (np_zeros n n).
Proof.
  unfold shape, np_zeros. split; [apply repeat_length|].
  intros a Ha. rewrite nth_repeat_lt by assumption. apply repeat_length.
Qed.

Lemma edge_zeros (n a b : nat) : edge (np_zeros n n) a b = false.
Proof.
  unfold edge, np_zeros.
  destruct (Nat.lt_ge_cases a n) as [Ha|Ha].
  - rewrite nth_repeat_lt by assumption.
    destruct (Nat.lt_ge_cases b n) as [Hb|Hb].
    + now rewrite nth_repeat_lt.
    + apply nth_overflow. now rewrite repeat_length.
  - rewrite (nth_overflow (repeat (repeat false n) n) [])
      by (now rewrite repeat_length).
    now destruct b.
Qed.

Lemma getitem2_edge (n : nat) (E : matrix) (a b : nat) :
  shape n E -> (a < n)%nat -> (b < n)%nat ->
  getitem2 E (Z.of_nat a) (Z.of_nat b) = Ok (edge E a b).
Proof.
  intros [HE Hrow] Ha Hb. unfold getitem2, edge.
  rewrite (getitem_nth E []) by lia. simpl.
  apply getitem_nth. rewrite Hrow; assumption.
Qed.

Lemma setitem2_update2 (n : nat) (E : matrix) (a b : nat) (v : bool) :
  shape n E -> (a < n)%nat -> (b < n)%nat ->
  setitem2 E (Z.of_nat a) (Z.of_nat b) v = Ok (update2 E a b v).
Proof.
  intros [HE Hrow] Ha Hb. unfold setitem2, update2.
  rewrite (getitem_nth E []) by lia. simpl.
  rewrite setitem_nat by (rewrite Hrow; assumption). simpl.
  apply setitem_nat. lia.
Qed.

Lemma shape_update2 (n : nat) (E : matrix) (a b : nat) (v : bool) :
  shape n E -> (a < n)%nat -> shape n (update2 E a b v).
Proof.
  intros [HE Hrow] Ha. unfold update2. split.
  - now rewrite length_update.
  - intros c Hc. rewrite nth_update by lia.
    destruct (c =? a)%nat eqn:Hca; [|auto].
    rewrite length_update. auto.
Qed.

Lemma edge_update2 (n : nat) (E : matrix) (a b x y : nat) (v : bool) :
  shape n E -> (a < n)%nat -> (b < n)%nat ->
  edge (update2 E a b v) x y =
  if ((x =? a) && (y =? b))%nat then v else edge E x y.
Proof.
  intros [HE Hrow] Ha Hb. unfold edge, update2.
  rewrite nth_update by lia.
  destruct (x =? a)%nat eqn:Hxa; simpl; [|reflexivity].
  apply Nat.eqb_eq in Hxa; subst x.
  apply nth_update. rewrite Hrow; assumption.
Qed.

(** ** The graph builder *)

Lemma edges_upto_row_start (G : list point) (n i : nat) (E : matrix) :
  edges_upto G n i 0 E -> edges_upto G n i (S i) E.
Proof.
  intros [Hs [He Hc]]. split; [assumption|]. split.
  - intros a b Ha Hb. rewrite (He a b Ha Hb). unfold scanned.
    nat_cases; reflexivity.
  - intros a b Hab. unfold scanned. intros H. apply (Hc a b Hab).
    unfold scanned. revert H. nat_cases; auto.
Qed.

Lemma edges_upto_row_end (G : list point) (n i : nat) (E : matrix) :
  (i < n)%nat -> edges_upto G n i n E -> edges_upto G n (S i) 0 E.
Proof.
  intros Hi [Hs [He Hc]]. split; [assumption|]. split.
  - intros a b Ha Hb. rewrite (He a b Ha Hb). unfold scanned.
    nat_cases; reflexivity.
  - intros a b Hab. unfold scanned. intros H. apply (Hc a b Hab).
    unfold scanned. revert H. nat_cases; auto.
Qed.

(** One iteration of the inner loop. *)
Lemma find_edges_inner_step (G : list point) (n i j : nat) (p_i : point) (E E' : matrix) :
  (i < j < n)%nat ->
  nth_error G i = Some p_i ->
  edges_upto G n i j E ->
  (p_j <- list_getitem G (Z.of_nat j) ;;
   d <- dij p_i p_j ;;
   if (d <=? 1)%float then
     edges <- setitem2 E (Z.of_nat i) (Z.of_nat j) true ;;
     setitem2 edges (Z.of_nat j) (Z.of_nat i) true
   else Ok E) = Ok E' ->
  edges_upto G n i (S j) E'.
Proof.
  intros Hij Hpi [Hs [He Hc]] Hrun.
  rewrite list_getitem_nat in Hrun.
  destruct (nth_error G j) as [p_j|] eqn:Hpj; cbn [bind] in Hrun; [|discriminate].
  destruct (dij p_i p_j) as [d|e] eqn:Hd; cbn [bind] in Hrun; [|discriminate].
  assert (Hclose : close G i j = (d <=? 1)%float).
  { unfold close. now rewrite Hpi, Hpj, Hd. }
  assert (Hmeas : measured G i j = true).
  { unfold measured. now rewrite Hpi, Hpj, Hd. }
  destruct (d <=? 1)%float eqn:Hw.
  - rewrite (setitem2_update2 (n:=n)) in Hrun by (auto; lia). cbn [bind] in Hrun.
    assert (Hs1 : shape n (update2 E i j true)) by (apply shape_update2; auto; lia).
    rewrite (setitem2_update2 (n:=n)) in Hrun by (auto; lia).
    inversion Hrun; subst E'; clear Hrun.
    split; [apply shape_update2; auto; lia|]. split.
    + intros a b Ha Hb.
      rewrite (edge_update2 (n:=n)) by (auto; lia).
      rewrite (edge_update2 (n:=n)) by (auto; lia).
      rewrite (He a b Ha Hb). unfold scanned.
      nat_cases; subst; simpl;
        try (assert (b = j) by lia; subst b);
        try (assert (a = j) by lia; subst a);
        rewrite ?Hclose; try reflexivity;
        rewrite ?andb_true_r, ?andb_false_r, ?orb_false_r; try reflexivity.
    + intros a b Hab. unfold scanned. intros H.
      destruct (Nat.eq_dec a i) as [->|Hai].
      * destruct (Nat.eq_dec b j) as [->|Hbj]; [exact Hmeas|].
        apply (Hc i b Hab). unfold scanned. revert H. nat_cases; auto.
      * apply (Hc a b Hab). unfold scanned. revert H. nat_cases; auto.
  - inversion Hrun; subst E'; clear Hrun.
    split; [assumption|]. split.
    + intros a b Ha Hb. rewrite (He a b Ha Hb). unfold scanned.
      nat_cases; subst; simpl;
        try (assert (b = j) by lia; subst b);
        try (assert (a = j) by lia; subst a);
        rewrite ?Hclose; try reflexivity;
        rewrite ?andb_true_r, ?andb_false_r, ?orb_false_r; try reflexivity.
    + intros a b Hab. unfold scanned. intros H.
      destruct (Nat.eq_dec a i) as [->|Hai].
      * destruct (Nat.eq_dec b j) as [->|Hbj]; [exact Hmeas|].
        apply (Hc i b Hab). unfold scanned. revert H. nat_cases; auto.
      * apply (Hc a b Hab). unfold scanned. revert H. nat_cases; auto.
Qed.

(** The loops of [find_edges], over natural counters. *)
Lemma find_edges_unfold (g : Globals) (n : nat) :
  find_edges g n =
  for_each (seq 0 (n - 1)) (fun i edges =>
    p_i <- list_getitem (global_graph g) (Z.of_nat i) ;;
    for_each (seq (S i) (n - S i)) (fun j edges =>
      p_j <- list_getitem (global_graph g) (Z.of_nat j) ;;
      d <- dij p_i p_j ;;
      if (d <=? 1)%float then
        edges <- setitem2 edges (Z.of_nat i) (Z.of_nat j) true ;;
        setitem2 edges (Z.of_nat j) (Z.of_nat i) true
      else Ok edges) edges) (np_zeros n n).
Proof.
  unfold find_edges. rewrite range_pred, for_each_map.
  apply for_each_ext. intros i E _.
  destruct (list_getitem (global_graph g) (Z.of_nat i)) as [p_i|e]; simpl;
    [|reflexivity].
  now rewrite range_succ, for_each_map.
Qed.

Lemma edges_upto_zeros (G : list point) (n : nat) : edges_upto G n 0 0 (np_zeros n n).
Proof.
  split; [apply shape_zeros|]. split.
  - intros a b _ _. rewrite edge_zeros. unfold scanned.
    nat_cases; reflexivity.
  - intros a b _. unfold scanned. nat_cases; simpl; discriminate.
Qed.

(** A pair on which [dij] returned has coordinates. *)
Lemma measured_inv (G : list point) (a b : nat) :
  measured G a b = true ->
  exists p q d,
    nth_error G a = Some p /\ nth_error G b = Some q /\ dij p q = Ok d /\
    close G a b = (d <=? 1)%float.
Proof.
  unfold measured, close.
  destruct (nth_error G a) as [p|]; [|discriminate].
  destruct (nth_error G b) as [q|]; [|discriminate].
  destruct (dij p q) as [d|e] eqn:Hd; [|discriminate].
  intros _. exists p, q, d. repeat split; assumption || reflexivity.
Qed.

Lemma measured_length (G : list point) (a b : nat) :
  measured G a b = true -> (a < length G)%nat /\ (b < length G)%nat.
Proof.
  intros H. apply measured_inv in H. destruct H as [p [q [d [Hp [Hq _]]]]].
  split; apply nth_error_Some; congruence.
Qed.

(** One iteration of the outer loop. *)
Lemma find_edges_outer_step (G : list point) (n i : nat) (E E' : matrix) :
  (i < n - 1)%nat ->
  edges_upto G n i 0 E ->
  (p_i <- list_getitem G (Z.of_nat i) ;;
   for_each (seq (S i) (n - S i)) (fun j edges =>
     p_j <- list_getitem G (Z.of_nat j) ;;
     d <- dij p_i p_j ;;
     if (d <=? 1)%float then
       edges <- setitem2 edges (Z.of_nat i) (Z.of_nat j) true ;;
       setitem2 edges (Z.of_nat j) (Z.of_nat i) true
     else Ok edges) E) = Ok E' ->
  edges_upto G n (S i) 0 E'.
Proof.
  intros Hi Hinv Hbody.
  rewrite list_getitem_nat in Hbody.
  destruct (nth_error G i) as [p_i|] eqn:Hpi; cbn [bind] in Hbody; [|discriminate].
  apply edges_upto_row_end; [lia|].
  replace n with (S i + (n - S i))%nat at 2 by lia.
  refine (@for_each_seq_inv _ (fun j E => edges_upto G n i j E) _ _ _ _ _
            (edges_upto_row_start Hinv) _ Hbody).
  intros j E2 E3 Hj Hinv2 Hstep.
  apply (find_edges_inner_step (i:=i) (j:=j) (p_i:=p_i) (E:=E2)); auto; lia.
Qed.

(** The state of the array when both loops are over. *)
Lemma find_edges_inv (g : Globals) (n : nat) (E : matrix) :
  find_edges g n = Ok E -> edges_upto (global_graph g) n (n - 1) 0 E.
Proof.
  rewrite find_edges_unfold. intros Hrun.
  set (G := global_graph g) in *.
  change (n - 1)%nat with (0 + (n - 1))%nat.
  refine (@for_each_seq_inv _ (fun i E => edges_upto G n i 0 E) _ _ _ _ _
            (edges_upto_zeros G n) _ Hrun).
  intros i E0 E1 Hi Hinv Hbody.
  apply (find_edges_outer_step (i:=i) (E:=E0)); auto; lia.
Qed.

(** [dij] raises nothing but [OverflowError]. *)
Lemma dij_raises (p q : point) (e : exn) : dij p q = Raise e -> e = OverflowError.
Proof.
  destruct p as [x_i y_i], q as [x_j y_j]. unfold dij, float_pow2.
  destruct (is_finite (x_i - x_j) && is_infinity ((x_i - x_j) * (x_i - x_j)));
    cbn [bind]; [intros H; now inversion H|].
  destruct (is_finite (y_i - y_j) && is_infinity ((y_i - y_j) * (y_i - y_j)));
    cbn [bind]; [intros H; now inversion H | discriminate].
Qed.

(** Every pair of vertices of a returned array was measured. *)
Lemma find_edges_measured (g : Globals) (n : nat) (E : matrix) (a b : nat) :
  find_edges g n = Ok E -> (a < b < n)%nat -> measured (global_graph g) a b = true.
Proof.
  intros Hrun Hab. apply find_edges_inv in Hrun.
  destruct Hrun as [_ [_ Hc]]. apply (Hc a b Hab). unfold scanned.
  nat_cases; reflexivity.
Qed.

(** What a returned array holds: the adjacency of every pair is the
    distance test on the coordinates of the global graph. *)
Lemma find_edges_spec (g : Globals) (n : nat) (E : matrix) :
  find_edges g n = Ok E ->
  shape n E /\
  (forall a b, (a < n)%nat -> (b < n)%nat ->
     edge E a b = ((a <? b)%nat && close (global_graph g) a b)
                  || ((b <? a)%nat && close (global_graph g) b a)) /\
  (forall a b, (a < b < n)%nat ->
     (a < length (global_graph g))%nat /\ (b < length (global_graph g))%nat).
Proof.
  intros Hrun. pose proof (find_edges_inv _ _ Hrun) as [Hs [He _]].
  split; [assumption|]. split.
  - intros a b Ha Hb. rewrite (He a b Ha Hb). unfold scanned.
    nat_cases; reflexivity.
  - intros a b Hab. apply measured_length.
    now apply (find_edges_measured g Hrun).
Qed.

Lemma upper_pairs_In (n i j : nat) :
  In (i, j) (upper_pairs n) <-> (i < j < n)%nat.
Proof.
  unfold upper_pairs. rewrite in_flat_map. split.
  - intros [a [Ha Hin]]. apply in_map_iff in Hin.
    destruct Hin as [b [Heq Hb]]. inversion Heq; subst.
    apply in_seq in Ha. apply in_seq in Hb. lia.
  - intros H. exists i. split; [apply in_seq; lia|].
    apply in_map_iff. exists j. split; [reflexivity | apply in_seq; lia].
Qed.


Lemma all_measured_spec (G : list point) (n : nat) :
  all_measured G n = true <->
  forall a b, (a < b < n)%nat -> measured G a b = true.
Proof.
  unfold all_measured. rewrite forallb_forall. split.
  - intros H a b Hab. apply (H (a, b)). now apply upper_pairs_In.
  - intros H [a b] Hin. apply H. now apply upper_pairs_In.
Qed.

(** The builder returns whenever [dij] returns on every pair of
    vertices. *)
Lemma find_edges_total (g : Globals) (n : nat) :
  all_measured (global_graph g) n = true ->
  exists E, find_edges g n = Ok E.
Proof.
  intros Hall. rewrite find_edges_unfold.
  set (G := global_graph g) in *.
  assert (Hm : forall a b, (a < b < n)%nat -> measured G a b = true)
    by (now apply all_measured_spec).
  destruct (@for_each_seq_total _ (fun _ E => shape n E)
    (fun i edges =>
      p_i <- list_getitem G (Z.of_nat i) ;;
      for_each (seq (S i) (n - S i)) (fun j edges =>
        p_j <- list_getitem G (Z.of_nat j) ;;
        d <- dij p_i p_j ;;
        if (d <=? 1)%float then
          edges <- setitem2 edges (Z.of_nat i) (Z.of_nat j) true ;;
          setitem2 edges (Z.of_nat j) (Z.of_nat i) true
        else Ok edges) edges) (n - 1) 0 _ (shape_zeros n)) as [E [HE _]].
  - intros i E0 Hi Hs0.
    destruct (measured_inv G i (S i) (Hm i (S i) ltac:(lia)))
      as [p_i [_ [_ [Hpi _]]]].
    rewrite list_getitem_nat, Hpi. cbn [bind].
    apply (@for_each_seq_total _ (fun _ E => shape n E)); [assumption|].
    intros j E1 Hj Hs1.
    destruct (measured_inv G i j (Hm i j ltac:(lia)))
      as [p [p_j [d [Hp [Hpj [Hd _]]]]]].
    assert (p = p_i) by congruence. subst p.
    rewrite list_getitem_nat, Hpj. cbn [bind]. rewrite Hd. cbn [bind].
    destruct (d <=? 1)%float.
    + rewrite (setitem2_update2 (n:=n)) by (auto; lia). cbn [bind].
      rewrite (setitem2_update2 (n:=n)) by (try apply shape_update2; auto; lia).
      eexists; split; [reflexivity|].
      apply shape_update2; [apply shape_update2|]; auto; lia.
    + eexists; split; [reflexivity|assumption].
  - exists E. exact HE.
Qed.

(** With at most one vertex no loop body runs. *)
Lemma find_edges_small (g : Globals) (n : nat) :
  (n <= 1)%nat -> find_edges g n = Ok (np_zeros n n).
Proof.
  intros Hn. rewrite find_edges_unfold.
  replace (n - 1)%nat with 0%nat by lia. reflexivity.
Qed.

(** ** Sums *)

Lemma sumZ_app {A : Type} (f : A -> Z) (l1 l2 : list A) :
  sumZ f (l1 ++ l2) = (sumZ f l1 + sumZ f l2)%Z.
Proof.
  induction l1 as [|x l1 IH]; simpl; [reflexivity|]. rewrite IH. lia.
Qed.

Lemma sumZ_ext {A : Type} (f f' : A -> Z) (l : list A) :
  (forall x, In x l -> f x = f' x) -> sumZ f l = sumZ f' l.
Proof.
  induction l as [|x l IH]; intros H; simpl; [reflexivity|].
  rewrite (H x) by (left; reflexivity).
  rewrite IH; [reflexivity|]. intros y Hy. apply H. right; exact Hy.
Qed.

Lemma sumZ_plus (f f' : nat -> Z) (l : list nat) :
  sumZ (fun x => (f x + f' x)%Z) l = (sumZ f l + sumZ f' l)%Z.
Proof.
  induction l as [|x l IH]; simpl; [reflexivity|]. rewrite IH. lia.
Qed.

Lemma sumZ_scale (c : Z) (f : nat -> Z) (l : list nat) :
  sumZ (fun x => (c * f x)%Z) l = (c * sumZ f l)%Z.
Proof.
  induction l as [|x l IH]; simpl; [lia|]. rewrite IH. lia.
Qed.

Lemma sumZ_zero {A : Type} (l : list A) : sumZ (fun _ => 0%Z) l = 0%Z.
Proof.
  induction l as [|x l IH]; simpl; [reflexivity|]. exact IH.
Qed.

Lemma sumZ_guard (c : bool) (f : nat -> Z) (l : list nat) :
  sumZ (fun x => if c then f x else 0%Z) l = if c then sumZ f l else 0%Z.
Proof.
  destruct c; [reflexivity | apply sumZ_zero].
Qed.

(** A sum with a single index selected. *)
Lemma sumZ_select (i : nat) (f : nat -> Z) (len a : nat) :
  sumZ (fun x => if (x =? i)%nat then f x else 0%Z) (seq a len) =
  if ((a <=? i) && (i <? a + len))%nat then f i else 0%Z.
Proof.
  revert a. induction len as [|len IH]; intros a; simpl.
  - destruct (Nat.leb_spec a i), (Nat.ltb_spec i (a + 0)); simpl; try reflexivity; lia.
  - rewrite IH.
    destruct (Nat.eqb_spec a i) as [->|Hne].
    + destruct (Nat.leb_spec (S i) i); [lia|]. simpl.
      destruct (Nat.leb_spec i i); [|lia].
      destruct (Nat.ltb_spec i (i + S len)); [|lia]. simpl. lia.
    + destruct (Nat.leb_spec (S a) i), (Nat.leb_spec a i),
        (Nat.ltb_spec i (S a + len)), (Nat.ltb_spec i (a + S len));
        simpl; try reflexivity; lia.
Qed.

(** A sum restricted to the indices below [i]. *)
Lemma sumZ_below (i : nat) (f : nat -> Z) (m : nat) :
  (i <= m)%nat ->
  sumZ (fun x => if (x <? i)%nat then f x else 0%Z) (seq 0 m) = sumZ f (seq 0 i).
Proof.
  intros Him. replace m with (i + (m - i))%nat by lia.
  rewrite seq_app, sumZ_app. simpl.
  rewrite (sumZ_ext (fun x => if (x <? i)%nat then f x else 0%Z) f (seq 0 i)).
  - rewrite (sumZ_ext (fun x => if (x <? i)%nat then f x else 0%Z) (fun _ => 0%Z)
               (seq i (m - i))).
    + rewrite sumZ_zero. lia.
    + intros x Hx. apply in_seq in Hx.
      destruct (Nat.ltb_spec x i); [lia | reflexivity].
  - intros x Hx. apply in_seq in Hx.
    destruct (Nat.ltb_spec x i); [reflexivity | lia].
Qed.

(** A sum over [0 .. n-1], split at [i]. *)
Lemma sumZ_split (i n : nat) (f : nat -> Z) :
  (i < n)%nat ->
  sumZ f (seq 0 n) = (sumZ f (seq 0 i) + f i + sumZ f (seq (S i) (n - S i)))%Z.
Proof.
  intros Hin. replace n with (i + S (n - S i))%nat at 1 by lia.
  rewrite seq_app, sumZ_app. simpl. lia.
Qed.

(** Counting is summing indicators. *)
Lemma sumZ_count (p : nat -> bool) (l : list nat) :
  sumZ (fun x => Z.b2z (p x)) l = Z.of_nat (length (filter p l)).
Proof.
  induction l as [|x l IH]; [reflexivity|].
  unfold sumZ in *. cbn [fold_right filter]. rewrite IH.
  destruct (p x); cbn [length Z.b2z]; lia.
Qed.

Lemma sumZ_filter {A : Type} (p : A -> bool) (f : A -> Z) (l : list A) :
  sumZ f (filter p l) = sumZ (fun x => if p x then f x else 0%Z) l.
Proof.
  induction l as [|x l IH]; simpl; [reflexivity|].
  destruct (p x); simpl; rewrite IH; reflexivity.
Qed.

(** A loop that adds [f x] to its accumulator at every [x]. *)
Lemma for_each_sum (f : nat -> Z) (l : list nat)
      (body : nat -> Z -> result Z) (acc : Z) :
  (forall x t, In x l -> body x t = Ok (t + f x)%Z) ->
  for_each l body acc = Ok (acc + sumZ f l)%Z.
Proof.
  revert acc. induction l as [|x l IH]; intros acc H; simpl.
  - f_equal. lia.
  - rewrite (H x acc) by (left; reflexivity). simpl.
    rewrite IH by (intros y t Hy; apply H; right; exact Hy).
    f_equal. lia.
Qed.

(** The same for a loop with two accumulators. *)
Lemma for_each_sum2 (f1 f2 : nat -> Z) (l : list nat)
      (body : nat -> Z * Z -> result (Z * Z)) (acc1 acc2 : Z) :
  (forall x t1 t2, In x l -> body x (t1, t2) = Ok (t1 + f1 x, t2 + f2 x)%Z) ->
  for_each l body (acc1, acc2) = Ok (acc1 + sumZ f1 l, acc2 + sumZ f2 l)%Z.
Proof.
  revert acc1 acc2. induction l as [|x l IH]; intros acc1 acc2 H; simpl.
  - f_equal. f_equal; lia.
  - rewrite (H x acc1 acc2) by (left; reflexivity). simpl.
    rewrite IH by (intros y t1 t2 Hy; apply H; right; exact Hy).
    f_equal. f_equal; lia.
Qed.

(** ** The energy model, in closed form *)

(** On a non-empty instance, [energy] returns [u] times the interaction
    sum minus the vertex sum. *)
Lemma energy_closed (g : Globals) (self : UDMIS) :
  well_formed self -> (1 <= num_vertices self)%nat ->
  energy g self =
  Ok (global_u g
      * inject_Z (interaction_sum (edge (edges self)) (occ_at (occupations self))
                                  (num_vertices self))
      - inject_Z (vertex_sum (occ_at (occupations self)) (num_vertices self)))%Q.
Proof.
  intros [Hs Hocc] Hn. unfold energy.
  set (n := num_vertices self) in *.
  set (E := edges self) in *. set (occ := occupations self) in *.
  rewrite range_pred, for_each_map.
  rewrite (@for_each_sum2
             (fun a => sumZ (pair_term (edge E) (occ_at occ) a) (seq (S a) (n - S a)))
             (fun a => Z.b2z (occ_at occ a))).
  - simpl bind.
    replace (Z.of_nat n - 1)%Z with (Z.of_nat (n - 1)) by lia.
    rewrite (getitem_nth occ false) by lia. simpl bind.
    unfold interaction_sum, vertex_sum. fold (occ_at occ (n - 1)).
    do 3 f_equal.
    rewrite (@sumZ_split (n - 1) n) by lia.
    replace (n - S (n - 1))%nat with 0%nat by lia. simpl. lia.
  - intros a t1 t2 Ha. apply in_seq in Ha.
    rewrite range_succ, for_each_map.
    rewrite (@for_each_sum (pair_term (edge E) (occ_at occ) a)).
    + simpl bind. rewrite (getitem_nth occ false) by lia. reflexivity.
    + intros b t Hb. apply in_seq in Hb.
      rewrite (getitem2_edge (n:=n)) by (auto; lia). simpl bind.
      unfold pair_term. destruct (edge E a b).
      * rewrite !(getitem_nth occ false) by lia. reflexivity.
      * f_equal. lia.
Qed.

Lemma take_nat {A : Type} (a : list A) (d : A) (l : list nat) :
  (forall j, In j l -> (j < length a)%nat) ->
  take a (map Z.of_nat l) = Ok (map (fun j => nth j a d) l).
Proof.
  induction l as [|j l IH]; intros H; simpl; [reflexivity|].
  rewrite (getitem_nth a d) by (apply H; left; reflexivity). simpl.
  rewrite IH by (intros j' Hj'; apply H; right; exact Hj'). reflexivity.
Qed.

Lemma fold_left_b2z (bs : list bool) (acc : Z) :
  fold_left (fun acc b => (acc + Z.b2z b)%Z) bs acc =
  (acc + fold_left (fun acc b => (acc + Z.b2z b)%Z) bs 0)%Z.
Proof.
  revert acc. induction bs as [|b bs IH]; intros acc; simpl; [lia|].
  rewrite IH, (IH (Z.b2z b)). lia.
Qed.

Lemma sum_map (f : nat -> bool) (l : list nat) :
  sum (map f l) = sumZ (fun j => Z.b2z (f j)) l.
Proof.
  unfold sum. induction l as [|j l IH]; simpl; [reflexivity|].
  rewrite fold_left_b2z, IH. reflexivity.
Qed.

(** [energy_diff] returns [-u k + 1] at an occupied vertex and [u k - 1]
    at an unoccupied one, [k] the sum of the occupations over row [i]. *)
Lemma energy_diff_closed (g : Globals) (self : UDMIS) (i : nat) :
  well_formed self -> (i < num_vertices self)%nat ->
  energy_diff g self (Z.of_nat i) =
  let k := occupied_neighbours (edge (edges self)) (occ_at (occupations self))
                               i (num_vertices self) in
  Ok (if occ_at (occupations self) i
      then - global_u g * inject_Z k + 1
      else global_u g * inject_Z k + (-1))%Q.
Proof.
  intros [[HE Hrow] Hocc] Hi. unfold energy_diff.
  set (n := num_vertices self) in *.
  set (E := edges self) in *. set (occ := occupations self) in *.
  rewrite (getitem_nth E []) by lia. simpl bind.
  unfold np_where. rewrite (Hrow i Hi).
  rewrite (take_nat occ false).
  - simpl bind. rewrite (getitem_nth occ false) by lia. simpl bind.
    rewrite sum_map, sumZ_filter.
    fold (occ_at occ i).
    replace (sumZ _ (seq 0 n))
      with (occupied_neighbours (edge E) (occ_at occ) i n);
      [destruct (occ_at occ i); reflexivity|].
    unfold occupied_neighbours. apply sumZ_ext. intros b _.
    unfold edge, occ_at. destruct (nth b (nth i E []) false); reflexivity.
  - intros j Hj. apply filter_In in Hj. destruct Hj as [Hj _].
    apply in_seq in Hj. lia.
Qed.

(** ** Toggling one occupation *)

Section Flip.

Variable e : nat -> nat -> bool.
Variable o : nat -> bool.
Variables i n : nat.

Hypothesis i_lt_n : (i < n)%nat.
Hypothesis e_sym : forall a b, (a < n)%nat -> (b < n)%nat -> e a b = e b a.
Hypothesis e_irrefl : forall a, (a < n)%nat -> e a a = false.

Lemma pair_term_flipped (a b : nat) :
  (a < b < n)%nat ->
  pair_term e (flipped o i) a b =
  (pair_term e o a b
   + delta o i * ((if (a =? i)%nat then (neighbour_term e o i) b else 0)
                  + (if (b =? i)%nat then (neighbour_term e o i) a else 0)))%Z.
Proof.
  intros Hab. unfold pair_term, flipped, delta, neighbour_term.
  destruct (Nat.eqb_spec a i) as [Ha|Ha], (Nat.eqb_spec b i) as [Hb|Hb]; subst.
  - lia.
  - destruct (e i b), (o i), (o b); reflexivity.
  - rewrite (@e_sym a i) by lia.
    destruct (e i a), (o i), (o a); reflexivity.
  - destruct (e a b), (o a), (o b), (o i); reflexivity.
Qed.

Lemma interaction_sum_flipped :
  interaction_sum e (flipped o i) n =
  (interaction_sum e o n + delta o i * occupied_neighbours e o i n)%Z.
Proof.
  unfold interaction_sum.
  rewrite (sumZ_ext
    (fun a => sumZ (pair_term e (flipped o i) a) (seq (S a) (n - S a)))
    (fun a => (sumZ (pair_term e o a) (seq (S a) (n - S a))
               + delta o i
                 * ((if (a =? i)%nat then sumZ (neighbour_term e o i) (seq (S a) (n - S a)) else 0)
                    + (if (a <? i)%nat then (neighbour_term e o i) a else 0)))%Z)).
  - rewrite sumZ_plus, sumZ_scale, sumZ_plus.
    rewrite sumZ_select, sumZ_below by lia.
    f_equal. f_equal.
    change (occupied_neighbours e o i n) with (sumZ (neighbour_term e o i) (seq 0 n)).
    rewrite (@sumZ_split i n (neighbour_term e o i)) by assumption.
    assert (HX : neighbour_term e o i i = 0%Z) by (unfold neighbour_term; now rewrite e_irrefl).
    rewrite HX.
    destruct (Nat.leb_spec 0 i); [|lia]. simpl andb.
    destruct (Nat.ltb_spec i (n - 1)).
    + lia.
    + replace (n - S i)%nat with 0%nat by lia. simpl. lia.
  - intros a Ha. apply in_seq in Ha.
    rewrite (sumZ_ext (pair_term e (flipped o i) a)
      (fun b => (pair_term e o a b
                 + delta o i * ((if (a =? i)%nat then (neighbour_term e o i) b else 0)
                                + (if (b =? i)%nat then (neighbour_term e o i) a else 0)))%Z)).
    + rewrite sumZ_plus, sumZ_scale, sumZ_plus.
      rewrite sumZ_guard.
      rewrite (sumZ_select i (fun _ => (neighbour_term e o i) a)).
      do 3 f_equal.
      destruct (Nat.leb_spec (S a) i), (Nat.ltb_spec i (S a + (n - S a))),
        (Nat.ltb_spec a i); simpl; try reflexivity; lia.
    + intros b Hb. apply in_seq in Hb. apply pair_term_flipped. lia.
Qed.

Lemma vertex_sum_flipped :
  vertex_sum (flipped o i) n = (vertex_sum o n + delta o i)%Z.
Proof.
  unfold vertex_sum.
  rewrite (sumZ_ext (fun a => Z.b2z (flipped o i a))
    (fun a => (Z.b2z (o a) + (if (a =? i)%nat then delta o i else 0))%Z)).
  - rewrite sumZ_plus. rewrite (sumZ_select i (fun _ => delta o i)).
    destruct (Nat.leb_spec 0 i), (Nat.ltb_spec i (0 + n)); simpl; try reflexivity; lia.
  - intros a _. unfold flipped, delta.
    destruct (Nat.eqb_spec a i) as [->|Ha]; [destruct (o i); reflexivity | lia].
Qed.

End Flip.

(** ** Instances *)

Lemma init_inv (g : Globals) (rng rng' : Rng) (u0 : Q) (graph0 : list point)
      (self : UDMIS) :
  __init__ g rng u0 graph0 = Ok (self, rng') ->
  u self = u0 /\ graph self = graph0 /\ num_vertices self = length graph0 /\
  length (occupations self) = length graph0 /\
  find_edges g (length graph0) = Ok (edges self).
Proof.
  unfold __init__, np_random_rand. intros H.
  apply bind_Ok in H. destruct H as [E [HE H]].
  inversion H; subst; clear H. simpl.
  rewrite !length_map, length_seq. auto.
Qed.

(** A constructed instance is well formed, with any occupation array of
    the right length in place of the initial one. *)
Lemma init_well_formed (g : Globals) (rng rng' : Rng) (u0 : Q)
      (graph0 : list point) (self : UDMIS) (occ : list bool) :
  __init__ g rng u0 graph0 = Ok (self, rng') ->
  length occ = num_vertices self ->
  well_formed (with_occupations self occ).
Proof.
  intros H Hocc. apply init_inv in H.
  destruct H as [_ [_ [Hn [_ HE]]]].
  apply find_edges_spec in HE. destruct HE as [Hs _].
  split; simpl; [now rewrite Hn | assumption].
Qed.

Lemma find_edges_sym (g : Globals) (n : nat) (E : matrix) (a b : nat) :
  find_edges g n = Ok E -> (a < n)%nat -> (b < n)%nat -> edge E a b = edge E b a.
Proof.
  intros H Ha Hb. apply find_edges_spec in H. destruct H as [_ [He _]].
  rewrite (He a b Ha Hb), (He b a Hb Ha). apply orb_comm.
Qed.

Lemma find_edges_irrefl (g : Globals) (n : nat) (E : matrix) (a : nat) :
  find_edges g n = Ok E -> (a < n)%nat -> edge E a a = false.
Proof.
  intros H Ha. apply find_edges_spec in H. destruct H as [_ [He _]].
  rewrite (He a a Ha Ha). now rewrite Nat.ltb_irrefl.
Qed.

Lemma toggle_nat (self : UDMIS) (i : nat) :
  (i < length (occupations self))%nat ->
  toggle self (Z.of_nat i) =
  Ok (with_occupations self
        (update (occupations self) i (negb (occ_at (occupations self) i)))).
Proof.
  intros Hi. unfold toggle.
  rewrite (getitem_nth (occupations self) false) by assumption. simpl bind.
  rewrite setitem_nat by assumption. reflexivity.
Qed.

Lemma occ_at_update (occ : list bool) (i a : nat) (v : bool) :
  (i < length occ)%nat ->
  occ_at (update occ i v) a = if (a =? i)%nat then v else occ_at occ a.
Proof.
  intros Hi. unfold occ_at. now apply nth_update.
Qed.

Lemma interaction_sum_ext (e : nat -> nat -> bool) (o o' : nat -> bool) (n : nat) :
  (forall a, o a = o' a) -> interaction_sum e o n = interaction_sum e o' n.
Proof.
  intros H. unfold interaction_sum.
  apply sumZ_ext. intros a _. apply sumZ_ext. intros b _.
  unfold pair_term. now rewrite !H.
Qed.

Lemma vertex_sum_ext (o o' : nat -> bool) (n : nat) :
  (forall a, o a = o' a) -> vertex_sum o n = vertex_sum o' n.
Proof.
  intros H. unfold vertex_sum. apply sumZ_ext. intros a _. now rewrite H.
Qed.

(** Toggling any sequence of vertices leaves the adjacency array alone. *)
Lemma toggles_edges (flips : list Z) (self self' : UDMIS) :
  for_each flips (fun i s => toggle s i) self = Ok self' ->
  edges self' = edges self /\ num_vertices self' = num_vertices self.
Proof.
  revert self. induction flips as [|i flips IH]; intros self H; simpl in H.
  - inversion H; subst. auto.
  - apply bind_Ok in H. destruct H as [s1 [H1 H2]].
    apply IH in H2. destruct H2 as [He Hn]. rewrite He, Hn.
    unfold toggle in H1.
    apply bind_Ok in H1. destruct H1 as [n_i [_ H1]].
    apply bind_Ok in H1. destruct H1 as [occ' [_ H1]].
    inversion H1; subst. auto.
Qed.

(** The constructor returns whenever [dij] returns on every pair of
    vertices of its argument, read in the global graph; neither [u] nor
    the coordinate list is examined. *)
Lemma init_total (g : Globals) (rng : Rng) (u0 : Q) (graph0 : list point) :
  all_measured (global_graph g) (length graph0) = true ->
  exists self rng',
    __init__ g rng u0 graph0 = Ok (self, rng') /\
    u self = u0 /\ graph self = graph0.
Proof.
  intros H.
  destruct (find_edges_total g _ H) as [E HE].
  unfold __init__, np_random_rand. rewrite HE. simpl.
  eexists. eexists. split; [reflexivity|]. split; reflexivity.
Qed.

Lemma getitem_In {A : Type} (l : list A) (i : Z) (x : A) :
  getitem l i = Ok x -> In x l.
Proof.
  unfold getitem. intros H. apply bind_Ok in H. destruct H as [k [_ H]].
  destruct (nth_error l k) as [y|] eqn:Hk; [|discriminate].
  inversion H; subst. now apply nth_error_In with k.
Qed.

(** Every entry that can be read from a fresh array is false. *)
Lemma getitem2_zeros (n : nat) (i j : Z) (b : bool) :
  getitem2 (np_zeros n n) i j = Ok b -> b = false.
Proof.
  unfold getitem2, np_zeros. intros H.
  apply bind_Ok in H. destruct H as [row [Hrow Hb]].
  apply getitem_In in Hrow. apply repeat_spec in Hrow. subst row.
  apply getitem_In in Hb. now apply repeat_spec in Hb.
Qed.

(** ** What the methods can raise *)

Lemma lookup_only_Ok {A : Type} (a : A) : lookup_only (Ok a).
Proof. intros e H. discriminate. Qed.

Lemma lookup_only_bind {A B : Type} (c : result A) (k : A -> result B) :
  lookup_only c -> (forall a, lookup_only (k a)) -> lookup_only (bind c k).
Proof.
  intros Hc Hk e H. destruct c as [a|e']; simpl in H.
  - now apply (Hk a).
  - inversion H; subst. now apply Hc.
Qed.

Lemma lookup_only_norm_index (len : nat) (i : Z) : lookup_only (norm_index len i).
Proof.
  unfold norm_index. intros e H.
  destruct ((0 <=? i)%Z && (i <? Z.of_nat len)%Z); [discriminate|].
  destruct ((- Z.of_nat len <=? i)%Z && (i <? 0)%Z); [discriminate|].
  inversion H. unfold out_of_bounds.
  now destruct ((2 ^ 63 <=? i)%Z && (i <? 2 ^ 64)%Z).
Qed.

Lemma lookup_only_getitem {A : Type} (l : list A) (i : Z) : lookup_only (getitem l i).
Proof.
  unfold getitem. apply lookup_only_bind; [apply lookup_only_norm_index|].
  intros k e H. destruct (nth_error l k); [discriminate | now inversion H].
Qed.




Lemma lookup_only_setitem {A : Type} (l : list A) (i : Z) (x : A) :
  lookup_only (setitem l i x).
Proof.
  unfold setitem. apply lookup_only_bind; [apply lookup_only_norm_index|].
  intros k. apply lookup_only_Ok.
Qed.

Lemma lookup_only_getitem2 (a : matrix) (i j : Z) : lookup_only (getitem2 a i j).
Proof.
  unfold getitem2. apply lookup_only_bind; [apply lookup_only_getitem|].
  intros row. apply lookup_only_getitem.
Qed.


Lemma lookup_only_take {A : Type} (a : list A) (idx : list Z) : lookup_only (take a idx).
Proof.
  induction idx as [|i idx IH]; simpl; [apply lookup_only_Ok|].
  apply lookup_only_bind; [apply lookup_only_getitem|].
  intros x. apply lookup_only_bind; [exact IH|].
  intros xs. apply lookup_only_Ok.
Qed.

Lemma lookup_only_for_each {X St : Type} (xs : list X)
      (body : X -> St -> result St) (s : St) :
  (forall x t, lookup_only (body x t)) -> lookup_only (for_each xs body s).
Proof.
  intros Hbody. revert s. induction xs as [|x xs IH]; intros s; simpl.
  - apply lookup_only_Ok.
  - apply lookup_only_bind; [apply Hbody | exact IH].
Qed.



Lemma lookup_only_energy (g : Globals) (self : UDMIS) : lookup_only (energy g self).
Proof.
  unfold energy. apply lookup_only_bind.
  - apply lookup_only_for_each. intros i [interaction_term vertex_term].
    apply lookup_only_bind.
    + apply lookup_only_for_each. intros j t.
      apply lookup_only_bind; [apply lookup_only_getitem2|]. intros b.
      destruct b; [|apply lookup_only_Ok].
      apply lookup_only_bind; [apply lookup_only_getitem|]. intros n_i.
      apply lookup_only_bind; [apply lookup_only_getitem|]. intros n_j.
      apply lookup_only_Ok.
    + intros t. apply lookup_only_bind; [apply lookup_only_getitem|].
      intros n_i. apply lookup_only_Ok.
  - intros [interaction_term vertex_term].
    apply lookup_only_bind; [apply lookup_only_getitem|].
    intros n_last. apply lookup_only_Ok.
Qed.

Lemma lookup_only_energy_diff (g : Globals) (self : UDMIS) (i : Z) :
  lookup_only (energy_diff g self i).
Proof.
  unfold energy_diff.
  apply lookup_only_bind; [apply lookup_only_getitem|]. intros row.
  apply lookup_only_bind; [apply lookup_only_take|]. intros adjacent.
  apply lookup_only_bind; [apply lookup_only_getitem|]. intros n_i.
  destruct n_i; apply lookup_only_Ok.
Qed.

Lemma lookup_only_toggle (self : UDMIS) (i : Z) : lookup_only (toggle self i).
Proof.
  unfold toggle.
  apply lookup_only_bind; [apply lookup_only_getitem|]. intros n_i.
  apply lookup_only_bind; [apply lookup_only_setitem|]. intros occ'.
  apply lookup_only_Ok.
Qed.

(** ** The annealing cell *)

Lemma truediv_nonzero (x y : Q) : ~ (y == 0)%Q -> truediv x y = Ok (x / y)%Q.
Proof.
  intros H. unfold truediv.
  destruct (Qeq_bool y 0) eqn:Hy; [|reflexivity].
  apply Qeq_bool_iff in Hy. contradiction.
Qed.

(** The schedule array holds the interpolation at every index. *)
Lemma temperatures_spec (pow : Q -> Q -> Q) (T_i T_f : Q) (N : nat) :
  ~ (T_i == 0)%Q ->
  exists T,
    temperatures pow T_i T_f N = Ok T /\
    forall t, (t <= N)%nat ->
              getitem T (Z.of_nat t) = Ok (temperature pow T_i T_f N (Z.of_nat t)).
Proof.
  intros H. unfold temperatures. rewrite (truediv_nonzero T_f H). simpl bind.
  eexists. split; [reflexivity|].
  intros t Ht. unfold np_arange. rewrite (range_shift 0).
  replace (Z.to_nat (Z.of_nat N + 1 - Z.of_nat 0)) with (S N) by lia.
  rewrite (getitem_nth _ (temperature pow T_i T_f N (Z.of_nat 0)))
    by (rewrite !length_map, length_seq; lia).
  f_equal. unfold temperature.
  rewrite (map_nth (fun t_k => (T_i * pow (T_f / T_i)
                                          (inject_Z t_k / inject_Z (Z.of_nat N)))%Q)).
  rewrite (map_nth Z.of_nat).
  rewrite seq_nth by lia. reflexivity.
Qed.

Lemma round_recording (T : Q) (t : Z) (calls : list Q) (out : list line) :
  exists out',
    round recording_step (fun _ => []) T t (calls, out) = Ok (calls ++ [T], out').
Proof.
  unfold round, recording_step. simpl.
  destruct (t mod 100 =? 0)%Z; eexists; reflexivity.
Qed.

(** The recording engine, driven over a list of rounds, appends the
    temperature of each round, in order. *)
Lemma recording_rounds (f : Z -> Q) (l : list Z) (calls : list Q) (out : list line) :
  exists out',
    for_each l (fun t acc => round recording_step (fun _ => []) (f t) t acc) (calls, out)
    = Ok (calls ++ map f l, out').
Proof.
  revert calls out. induction l as [|t l IH]; intros calls out.
  - exists out. simpl. now rewrite app_nil_r.
  - cbn [for_each map].
    destruct (round_recording (f t) t calls out) as [out1 H1]. rewrite H1.
    cbn [bind].
    destruct (IH (calls ++ [f t]) out1) as [out' Hout'].
    rewrite Hout'. exists out'. now rewrite <- app_assoc.
Qed.

(** ** The Metropolis step *)

(** A draw in [0, 1) selects a vertex. *)
Lemma rand_vertex_in_range (self : UDMIS) (rng : Rng) :
  (1 <= num_vertices self)%nat ->
  (0 <= rng 0%nat < 1)%Q ->
  exists i,
    (i < num_vertices self)%nat /\
    rand_vertex self rng = Ok (Z.of_nat i, fun k => rng (S k)).
Proof.
  intros Hn [Hr0 Hr1]. unfold rand_vertex, np_random_randint.
  set (n := num_vertices self) in *.
  destruct (Z.leb_spec (Z.of_nat n) 0) as [H|_]; [lia|].
  set (k := Qfloor (rng 0%nat * inject_Z (Z.of_nat n))).
  assert (Hnpos : (0 < inject_Z (Z.of_nat n))%Q).
  { change (inject_Z 0 < inject_Z (Z.of_nat n))%Q. rewrite <- Zlt_Qlt. lia. }
  assert (Hk0 : (0 <= k)%Z).
  { change 0%Z with (Qfloor (inject_Z 0)). apply Qfloor_resp_le.
    apply Qmult_le_0_compat; [exact Hr0 | apply Qlt_le_weak; exact Hnpos]. }
  assert (Hk1 : (k < Z.of_nat n)%Z).
  { rewrite Zlt_Qlt.
    apply Qle_lt_trans with (rng 0%nat * inject_Z (Z.of_nat n))%Q;
      [apply Qfloor_le|].
    setoid_replace (inject_Z (Z.of_nat n)) with (1 * inject_Z (Z.of_nat n))%Q at 2
      by ring.
    apply Qmult_lt_compat_r; assumption. }
  exists (Z.to_nat k). split; [lia|].
  now rewrite Z2Nat.id by assumption.
Qed.

(** At a temperature that is not positive the acceptance rule is the
    greedy one, and nothing is drawn or divided. *)
Lemma accept_greedy (exp : Q -> Q) (T dE : Q) (rng : Rng) :
  (T <= 0)%Q -> accept exp T dE rng = Ok (Qle_bool dE 0, rng).
Proof.
  intros HT. unfold accept.
  destruct (Qle_bool dE 0); [reflexivity|].
  apply Qle_bool_iff in HT. now rewrite HT.
Qed.

(** ** The total energy as a sum over edges and vertices *)

Lemma upper_pairs_NoDup (n : nat) : NoDup (upper_pairs n).
Proof.
  unfold upper_pairs.
  assert (H : forall l, NoDup l ->
                        NoDup (flat_map (fun i => map (pair i) (seq (S i) (n - S i))) l)).
  { induction l as [|a l IH]; intros Hl; simpl; [constructor|].
    inversion Hl as [|? ? Hnotin Hl']; subst.
    apply NoDup_app.
    - apply NoDup_map_NoDup_ForallPairs; [|apply seq_NoDup].
      intros x y _ _ Hxy. now inversion Hxy.
    - now apply IH.
    - intros [x y] Hin1 Hin2.
      apply in_map_iff in Hin1. destruct Hin1 as [b [Heq _]]. inversion Heq; subst.
      apply in_flat_map in Hin2. destruct Hin2 as [a' [Ha' Hin2]].
      apply in_map_iff in Hin2. destruct Hin2 as [b' [Heq' _]]. inversion Heq'; subst.
      contradiction. }
  apply H. apply seq_NoDup.
Qed.

Lemma sumZ_flat_map {A B : Type} (f : B -> Z) (h : A -> list B) (l : list A) :
  sumZ f (flat_map h l) = sumZ (fun a => sumZ f (h a)) l.
Proof.
  induction l as [|a l IH]; simpl; [reflexivity|].
  now rewrite sumZ_app, IH.
Qed.

Lemma sumZ_map {A B : Type} (f : B -> Z) (h : A -> B) (l : list A) :
  sumZ f (map h l) = sumZ (fun a => f (h a)) l.
Proof.
  induction l as [|a l IH]; simpl; [reflexivity|]. now rewrite IH.
Qed.

(** The interaction sum of the loops is the sum of [n_i n_j] over the
    unordered adjacent pairs. *)
Lemma interaction_sum_pairs (E : matrix) (occ : list bool) (n : nat) :
  interaction_sum (edge E) (occ_at occ) n =
  sumZ (fun '(i, j) => (Z.b2z (occ_at occ i) * Z.b2z (occ_at occ j))%Z)
       (adjacent_pairs E n).
Proof.
  unfold adjacent_pairs, upper_pairs, interaction_sum.
  rewrite sumZ_filter, sumZ_flat_map.
  destruct n as [|n]; [reflexivity|].
  replace (S n - 1)%nat with n by lia.
  rewrite seq_S, sumZ_app.
  match goal with
  | |- _ = (_ + ?x)%Z =>
      replace x with 0%Z by (simpl; now rewrite Nat.sub_diag)
  end.
  rewrite Z.add_0_r.
  apply sumZ_ext. intros a _. rewrite sumZ_map.
  apply sumZ_ext. intros b _. unfold pair_term.
  destruct (edge E a b), (occ_at occ a), (occ_at occ b); reflexivity.
Qed.

(** On a constructed instance with at least one vertex, [energy()] returns
    [u] times the sum of [n_i n_j] over the unordered adjacent pairs
    minus the sum of [n_i] over the vertices. *)
Lemma energy_formula
      (g0 g : Globals) (rng rng' : Rng) (u0 : Q) (graph0 : list point)
      (self0 : UDMIS) (occ : list bool) :
  __init__ g0 rng u0 graph0 = Ok (self0, rng') ->
  length occ = num_vertices self0 ->
  (1 <= num_vertices self0)%nat ->
  energy g (with_occupations self0 occ) =
  Ok (global_u g
      * inject_Z (sumZ (fun '(i, j) => (Z.b2z (occ_at occ i) * Z.b2z (occ_at occ j))%Z)
                       (adjacent_pairs (edges self0) (num_vertices self0)))
      - inject_Z (sumZ (fun i => Z.b2z (occ_at occ i)) (seq 0 (num_vertices self0))))%Q.
Proof.
  intros Hinit Hlen Hn.
  pose proof (@init_well_formed g0 rng rng' u0 graph0 self0 _ Hinit Hlen) as Hwf.
  rewrite (energy_closed g Hwf) by (simpl; lia). simpl.
  now rewrite interaction_sum_pairs.
Qed.

(** * The properties of the specification *)

(** ** The energy model *)

(** C1.  Delta/full consistency: on an instance built by the constructor,
    for every occupation array of the right length, every value of the
    global [u] and every vertex [i], [energy()] after toggling [i] minus
    [energy()] before it equals [energy_diff(i)] taken before the toggle
    (in exact arithmetic). *)
Theorem energy_diff_consistent
        (g0 g : Globals) (rng rng' : Rng) (u0 : Q) (graph0 : list point)
        (self0 : UDMIS) (occ : list bool) (i : nat) :
  __init__ g0 rng u0 graph0 = Ok (self0, rng') ->
  length occ = num_vertices self0 ->
  (i < num_vertices self0)%nat ->
  exists self' E0 E1 dE,
    toggle (with_occupations self0 occ) (Z.of_nat i) = Ok self' /\
    energy g (with_occupations self0 occ) = Ok E0 /\
    energy g self' = Ok E1 /\
    energy_diff g (with_occupations self0 occ) (Z.of_nat i) = Ok dE /\
    (E1 - E0 == dE)%Q.
Proof.
  intros Hinit Hlen Hi.
  pose proof (@init_well_formed g0 rng rng' u0 graph0 self0 _ Hinit Hlen) as Hwf.
  assert (Hlen' : length (update occ i (negb (occ_at occ i))) = num_vertices self0)
    by (now rewrite length_update).
  pose proof (@init_well_formed g0 rng rng' u0 graph0 self0 _ Hinit Hlen') as Hwf'.
  apply init_inv in Hinit. destruct Hinit as [_ [_ [Hn [_ HE]]]].
  rewrite <- Hn in HE.
  set (n := num_vertices self0) in *. set (E := edges self0) in *.
  exists (with_occupations self0 (update occ i (negb (occ_at occ i)))).
  eexists. eexists. eexists.
  split; [rewrite toggle_nat by (simpl; lia); reflexivity|].
  split; [apply energy_closed; [exact Hwf | simpl; lia]|].
  split; [apply energy_closed; [exact Hwf' | simpl; lia]|].
  split; [apply energy_diff_closed; [exact Hwf | exact Hi]|].
  simpl. fold n E.
  assert (Hflip : forall a, occ_at (update occ i (negb (occ_at occ i))) a
                            = flipped (occ_at occ) i a).
  { intros a. unfold flipped. apply occ_at_update. lia. }
  rewrite (interaction_sum_ext (edge E) _ _ n Hflip).
  rewrite (vertex_sum_ext _ _ n Hflip).
  rewrite (@interaction_sum_flipped (edge E) (occ_at occ) i n Hi).
  - rewrite (@vertex_sum_flipped (occ_at occ) i n Hi).
    rewrite !inject_Z_plus, inject_Z_mult.
    unfold delta. destruct (occ_at occ i); simpl inject_Z; ring.
  - intros a b Ha Hb. apply (@find_edges_sym g0 n E a b HE Ha Hb).
  - intros a Ha. apply (@find_edges_irrefl g0 n E a HE Ha).
Qed.

Lemma energy_diff_consistent_witness :
  exists self' E0 E1 dE,
    toggle (with_occupations udmis [false; true; true; true; false; false]) 1
      = Ok self' /\
    energy notebook_globals
           (with_occupations udmis [false; true; true; true; false; false]) = Ok E0 /\
    energy notebook_globals self' = Ok E1 /\
    energy_diff notebook_globals
           (with_occupations udmis [false; true; true; true; false; false]) 1
      = Ok dE /\
    (E1 - E0 == dE)%Q.
Proof.
  apply (@energy_diff_consistent notebook_globals notebook_globals rng0
           (fun k => rng0 (6 + k)%nat) 1.35 (global_graph notebook_globals)
           udmis [false; true; true; true; false; false] 1%nat).
  - vm_compute. reflexivity.
  - reflexivity.
  - simpl. lia.
Defined.

(** C2.  With [k] the number of occupied neighbours of [i] (the [j] with
    [edges[i][j]] true and [n_j] occupied), [energy_diff(i)] returns
    [-u k + 1] when [i] is occupied and [u k - 1] when it is not, [u] being
    the value the method reads. *)
Theorem energy_diff_formula
        (g0 g : Globals) (rng rng' : Rng) (u0 : Q) (graph0 : list point)
        (self0 : UDMIS) (occ : list bool) (i : nat) :
  __init__ g0 rng u0 graph0 = Ok (self0, rng') ->
  length occ = num_vertices self0 ->
  (i < num_vertices self0)%nat ->
  let self := with_occupations self0 occ in
  let k := Z.of_nat (length (filter (fun j => edge (edges self) i j && occ_at occ j)
                                    (seq 0 (num_vertices self)))) in
  exists n_i,
    getitem (occupations self) (Z.of_nat i) = Ok n_i /\
    energy_diff g self (Z.of_nat i) =
    Ok (if n_i then - global_u g * inject_Z k + 1
        else global_u g * inject_Z k - 1)%Q.
Proof.
  intros Hinit Hlen Hi. cbv zeta.
  pose proof (@init_well_formed g0 rng rng' u0 graph0 self0 _ Hinit Hlen) as Hwf.
  exists (occ_at occ i). split.
  - simpl. apply getitem_nth. lia.
  - rewrite (energy_diff_closed g Hwf Hi). simpl.
    unfold occupied_neighbours. rewrite sumZ_count. reflexivity.
Qed.

Lemma energy_diff_formula_witness :
  exists n_i,
    getitem [false; true; true; true; false; false] 1 = Ok n_i /\
    energy_diff notebook_globals
                (with_occupations udmis [false; true; true; true; false; false]) 1 =
    Ok (if n_i then - 1.35 * inject_Z 1 + 1 else 1.35 * inject_Z 1 - 1)%Q.
Proof.
  apply (@energy_diff_formula notebook_globals notebook_globals rng0
           (fun k => rng0 (6 + k)%nat) 1.35 (global_graph notebook_globals)
           udmis [false; true; true; true; false; false] 1%nat).
  - vm_compute. reflexivity.
  - reflexivity.
  - simpl. lia.
Defined.

(** C3.  On the instance built from an empty coordinate list, [energy()]
    raises [IndexError] at [self.occupations[self.num_vertices - 1]]
    instead of returning the empty sums. *)
Theorem energy_empty_raises (g : Globals) (rng : Rng) (u0 : Q) :
  exists self rng',
    __init__ g rng u0 [] = Ok (self, rng') /\
    num_vertices self = 0%nat /\
    energy g self = Raise IndexError.
Proof.
  eexists. eexists. split; [reflexivity|]. split; reflexivity.
Qed.

(** ** The graph builder *)




(** C5.  Edge symmetry and no self-loops: in the instance the constructor
    returns, and in every instance reached from it by toggling
    occupations (the only mutation), [edges[i][j] == edges[j][i]] and
    [edges[i][i] == False] for all vertices [i], [j]. *)
Theorem edges_symmetric_no_loops
        (g : Globals) (rng rng' : Rng) (u0 : Q) (graph0 : list point)
        (self self' : UDMIS) (flips : list Z) (i j : nat) :
  __init__ g rng u0 graph0 = Ok (self, rng') ->
  for_each flips (fun i s => toggle s i) self = Ok self' ->
  (i < num_vertices self)%nat -> (j < num_vertices self)%nat ->
  edges self' = edges self /\
  (exists b, getitem2 (edges self') (Z.of_nat i) (Z.of_nat j) = Ok b /\
             getitem2 (edges self') (Z.of_nat j) (Z.of_nat i) = Ok b) /\
  getitem2 (edges self') (Z.of_nat i) (Z.of_nat i) = Ok false.
Proof.
  intros Hinit Hflips Hi Hj.
  apply toggles_edges in Hflips. destruct Hflips as [He _].
  rewrite He. split; [reflexivity|].
  apply init_inv in Hinit. destruct Hinit as [_ [_ [Hn [_ HE]]]].
  rewrite <- Hn in HE.
  pose proof (find_edges_spec _ _ HE) as [Hs _].
  split.
  - exists (edge (edges self) i j). split.
    + apply (getitem2_edge Hs Hi Hj).
    + rewrite (getitem2_edge Hs Hj Hi). f_equal.
      apply (@find_edges_sym g _ _ j i HE Hj Hi).
  - rewrite (getitem2_edge Hs Hi Hi). f_equal.
    apply (@find_edges_irrefl g _ _ i HE Hi).
Qed.

Lemma edges_symmetric_no_loops_witness :
  exists self',
    for_each [1; 4; 1]%Z (fun i s => toggle s i) udmis = Ok self' /\
    edges self' = edges udmis /\
    (exists b, getitem2 (edges self') 0 3 = Ok b /\
               getitem2 (edges self') 3 0 = Ok b) /\
    getitem2 (edges self') 0 0 = Ok false.
Proof.
  eexists. split; [vm_compute; reflexivity|].
  apply (@edges_symmetric_no_loops notebook_globals rng0 (fun k => rng0 (6 + k)%nat)
           1.35 (global_graph notebook_globals) udmis _ [1; 4; 1]%Z 0%nat 3%nat).
  - vm_compute. reflexivity.
  - vm_compute. reflexivity.
  - simpl. lia.
  - simpl. lia.
Defined.

(** ** Construction *)

(** C6 (as the code has it).  Construction validates neither argument:
    with an empty coordinate list, or with [u <= 0] and a coordinate list
    on whose pairs of vertices the distance computation of the builder
    returns (the global graph has coordinates for them and no square
    overflows), it returns an instance holding the given [u] and
    [graph]. *)
Theorem init_accepts_invalid
        (g : Globals) (rng : Rng) (u0 : Q) (graph0 : list point) :
  graph0 = [] \/
  ((u0 <= 0)%Q /\ all_measured (global_graph g) (length graph0) = true) ->
  exists self rng',
    __init__ g rng u0 graph0 = Ok (self, rng') /\
    u self = u0 /\ graph self = graph0.
Proof.
  intros [H|[_ H]]; apply init_total.
  - subst. reflexivity.
  - exact H.
Qed.

Lemma init_accepts_invalid_witness :
  exists self rng',
    __init__ notebook_globals rng0 (-1.35) (global_graph notebook_globals)
      = Ok (self, rng') /\
    u self = (-1.35)%Q /\ graph self = global_graph notebook_globals.
Proof.
  apply init_accepts_invalid. right. split.
  - unfold Qle. simpl. lia.
  - vm_compute. reflexivity.
Defined.

(** C6, counterexample: an empty coordinate list and a negative [u] are
    accepted. *)
Lemma init_empty_negative_accepted :
  __init__ notebook_globals rng0 (-1) [] =
  Ok ({| u := -1; graph := []; num_vertices := 0; occupations := []; edges := [] |},
      rng0).
Proof. reflexivity. Qed.

(** C7.  Degenerate input: with zero or one vertex the constructor returns,
    and the adjacency array it builds is all false. *)
Theorem init_degenerate
        (g : Globals) (rng : Rng) (u0 : Q) (graph0 : list point) :
  (length graph0 <= 1)%nat ->
  exists self rng',
    __init__ g rng u0 graph0 = Ok (self, rng') /\
    num_vertices self = length graph0 /\
    edges self = np_zeros (length graph0) (length graph0) /\
    (forall i j b, getitem2 (edges self) i j = Ok b -> b = false).
Proof.
  intros H. unfold __init__, np_random_rand.
  rewrite (find_edges_small g H). simpl.
  eexists. eexists. split; [reflexivity|]. simpl.
  split; [reflexivity|]. split; [reflexivity|].
  apply getitem2_zeros.
Qed.

Lemma init_degenerate_witness :
  exists self rng',
    __init__ notebook_globals rng0 1.35 [(0.5, 0.5)%float] = Ok (self, rng') /\
    num_vertices self = 1%nat /\
    edges self = [[false]] /\
    (forall i j b, getitem2 (edges self) i j = Ok b -> b = false).
Proof.
  apply (@init_degenerate notebook_globals rng0 1.35 [(0.5, 0.5)%float]).
  simpl. lia.
Defined.

(** ** The annealing schedule and the step *)

(** C8.  The annealing schedule: for [T_i] other than zero, the
    temperature read at every step index [t] in [[0, N)] is
    [T_i * (T_f / T_i) ** (t / N)]; the loop is the sequence of calls of
    the step engine for [t = 0 .. N-1], each with that temperature; an
    engine that records its argument is left with exactly these [N]
    temperatures, in order. *)
Theorem annealing_schedule (pow : Q -> Q -> Q) (T_i T_f : Q) (N : nat) :
  ~ (T_i == 0)%Q ->
  (exists T,
     temperatures pow T_i T_f N = Ok T /\
     forall t, (t < N)%nat ->
               getitem T (Z.of_nat t) = Ok (temperature pow T_i T_f N (Z.of_nat t))) /\
  (forall (State : Type) (mc_step : Q -> State -> result (Q * State))
          (occupations_of : State -> list bool) (udmis : State),
     anneal pow mc_step occupations_of T_i T_f N udmis =
     for_each (range 0 (Z.of_nat N))
              (fun t acc => round mc_step occupations_of
                                  (temperature pow T_i T_f N t) t acc)
              (udmis, [])) /\
  (exists out,
     anneal pow recording_step (fun _ => []) T_i T_f N [] =
     Ok (map (temperature pow T_i T_f N) (range 0 (Z.of_nat N)), out)).
Proof.
  intros H.
  destruct (temperatures_spec pow T_f N H) as [T [HT Hget]].
  assert (Hloop : forall (State : Type) (mc_step : Q -> State -> result (Q * State))
                         (occupations_of : State -> list bool) (udmis : State),
             anneal pow mc_step occupations_of T_i T_f N udmis =
             for_each (range 0 (Z.of_nat N))
                      (fun t acc => round mc_step occupations_of
                                          (temperature pow T_i T_f N t) t acc)
                      (udmis, [])).
  { intros State mc_step occupations_of udmis.
    unfold anneal. rewrite HT. simpl bind.
    apply for_each_ext. intros t acc Ht.
    rewrite (range_shift 0) in Ht. apply in_map_iff in Ht.
    destruct Ht as [k [<- Hk]]. apply in_seq in Hk.
    rewrite Hget by lia. reflexivity. }
  split; [|split].
  - exists T. split; [exact HT|]. intros t Ht. apply Hget. lia.
  - exact Hloop.
  - rewrite Hloop.
    destruct (recording_rounds (temperature pow T_i T_f N)
                               (range 0 (Z.of_nat N)) [] []) as [out Hout].
    exists out. exact Hout.
Qed.

Lemma annealing_schedule_witness :
  exists out,
    anneal (fun b e => b ^ Qfloor e)%Q recording_step (fun _ => []) 100 0.01 1 [] =
    Ok (map (temperature (fun b e => b ^ Qfloor e)%Q 100 0.01 1) (range 0 1), out).
Proof.
  apply (@annealing_schedule (fun b e => b ^ Qfloor e)%Q 100 0.01 1).
  unfold Qeq. simpl. lia.
Defined.

(** At a temperature that is not positive the step raises no
    [ZeroDivisionError], whatever the instance and the draws. *)
Lemma step_no_division (exp : Q -> Q) (g : Globals) (T : Q) (self : UDMIS)
      (rng : Rng) :
  (T <= 0)%Q -> step exp g T (self, rng) <> Raise ZeroDivisionError.
Proof.
  intros HT H. unfold step in H.
  destruct (rand_vertex self rng) as [[i rng1]|e] eqn:Hrand; simpl in H.
  - destruct (energy_diff g self i) as [dE|e] eqn:HdE; simpl in H.
    + rewrite (accept_greedy exp dE rng1 HT) in H. simpl in H.
      destruct (Qle_bool dE 0).
      * destruct (toggle self i) as [self'|e] eqn:Htog; simpl in H.
        -- destruct (energy g self') as [E|e] eqn:HE; simpl in H; [discriminate|].
           inversion H; subst. apply lookup_only_energy in HE. discriminate.
        -- inversion H; subst. apply lookup_only_toggle in Htog. discriminate.
      * simpl in H.
        destruct (energy g self) as [E|e] eqn:HE; simpl in H; [discriminate|].
        inversion H; subst. apply lookup_only_energy in HE. discriminate.
    + inversion H; subst. apply lookup_only_energy_diff in HdE. discriminate.
  - inversion H; subst. unfold rand_vertex, np_random_randint in Hrand.
    destruct (Z.of_nat (num_vertices self) <=? 0)%Z; discriminate.
Qed.

(** C9.  Zero-temperature safety, on the step as the specification
    describes it.  With [T <= 0]: the acceptance rule accepts a flip if and
    only if its energy delta is [<= 0], without drawing or dividing; the
    step raises no [ZeroDivisionError] on any instance; and on a non-empty
    constructed instance, with a draw in [0, 1), it returns, having toggled
    the selected vertex exactly when [dE <= 0]. *)
Theorem step_zero_temperature (exp : Q -> Q) (g : Globals) (T : Q) :
  (T <= 0)%Q ->
  (forall (dE : Q) (rng : Rng), accept exp T dE rng = Ok (Qle_bool dE 0, rng)) /\
  (forall (self : UDMIS) (rng : Rng),
     step exp g T (self, rng) <> Raise ZeroDivisionError) /\
  (forall (g0 : Globals) (rng_init rng_init' : Rng) (u0 : Q) (graph0 : list point)
          (self0 : UDMIS) (occ : list bool) (rng : Rng),
     __init__ g0 rng_init u0 graph0 = Ok (self0, rng_init') ->
     length occ = num_vertices self0 ->
     (1 <= num_vertices self0)%nat ->
     (0 <= rng 0%nat < 1)%Q ->
     exists i dE self' E rng',
       rand_vertex (with_occupations self0 occ) rng = Ok (i, rng') /\
       energy_diff g (with_occupations self0 occ) i = Ok dE /\
       (if Qle_bool dE 0 then toggle (with_occupations self0 occ) i = Ok self'
        else self' = with_occupations self0 occ) /\
       energy g self' = Ok E /\
       step exp g T (with_occupations self0 occ, rng) = Ok (E, (self', rng'))).
Proof.
  intros HT.
  split; [intros dE rng; apply accept_greedy; exact HT|].
  split; [intros self rng; apply step_no_division; exact HT|].
  intros g0 rng_init rng_init' u0 graph0 self0 occ rng Hinit Hlen Hn Hr.
  pose proof (@init_well_formed g0 rng_init rng_init' u0 graph0 self0 _ Hinit Hlen)
    as Hwf.
  destruct (@rand_vertex_in_range (with_occupations self0 occ) rng Hn Hr)
    as [i [Hi Hrand]].
  simpl in Hi.
  pose proof (energy_diff_closed g Hwf Hi) as HdE. cbv zeta in HdE.
  assert (Hlen' : length (update occ i (negb (occ_at occ i))) = num_vertices self0)
    by (now rewrite length_update).
  pose proof (@init_well_formed g0 rng_init rng_init' u0 graph0 self0 _ Hinit Hlen')
    as Hwf'.
  pose proof (@toggle_nat (with_occupations self0 occ) i) as Htog.
  simpl in Htog. specialize (Htog ltac:(lia)).
  simpl occupations in *. simpl edges in *. simpl num_vertices in *.
  match type of HdE with _ = Ok ?d => set (dE := d) in * end.
  assert (Hstep : forall self' E,
             (if Qle_bool dE 0 then toggle (with_occupations self0 occ) (Z.of_nat i)
              else Ok (with_occupations self0 occ)) = Ok self' ->
             energy g self' = Ok E ->
             step exp g T (with_occupations self0 occ, rng)
             = Ok (E, (self', fun k => rng (S k)))).
  { intros self' E Hself HE.
    unfold step. rewrite Hrand. cbn [bind]. rewrite HdE. cbn [bind].
    rewrite accept_greedy by exact HT. cbn [bind].
    rewrite Hself. cbn [bind]. rewrite HE. reflexivity. }
  destruct (Qle_bool dE 0) eqn:Hq.
  - exists (Z.of_nat i), dE. eexists. eexists. exists (fun k => rng (S k)).
    split; [exact Hrand|]. split; [exact HdE|].
    rewrite Hq. split; [exact Htog|].
    split; [apply (energy_closed g Hwf'); simpl; lia|].
    apply Hstep; [exact Htog | apply (energy_closed g Hwf'); simpl; lia].
  - exists (Z.of_nat i), dE. eexists. eexists. exists (fun k => rng (S k)).
    split; [exact Hrand|]. split; [exact HdE|].
    rewrite Hq. split; [reflexivity|].
    split; [apply (energy_closed g Hwf); simpl; lia|].
    apply Hstep; [reflexivity | apply (energy_closed g Hwf); simpl; lia].
Qed.

Lemma step_zero_temperature_witness :
  exists i dE self' E rng',
    rand_vertex (with_occupations udmis [false; true; true; true; false; false]) rng0
      = Ok (i, rng') /\
    energy_diff notebook_globals
                (with_occupations udmis [false; true; true; true; false; false]) i
      = Ok dE /\
    (if Qle_bool dE 0
     then toggle (with_occupations udmis [false; true; true; true; false; false]) i
          = Ok self'
     else self' = with_occupations udmis [false; true; true; true; false; false]) /\
    energy notebook_globals self' = Ok E /\
    step (fun _ => 1%Q) notebook_globals 0
         (with_occupations udmis [false; true; true; true; false; false], rng0)
      = Ok (E, (self', rng')).
Proof.
  refine (proj2 (proj2 (@step_zero_temperature (fun _ => 1%Q) notebook_globals 0 _))
            notebook_globals rng0 (fun k => rng0 (6 + k)%nat) 1.35
            (global_graph notebook_globals) udmis
            [false; true; true; true; false; false] rng0 _ _ _ _).
  - unfold Qle. simpl. lia.
  - vm_compute. reflexivity.
  - reflexivity.
  - simpl. lia.
  - split; [unfold Qle | unfold Qlt]; simpl; lia.
Defined.

(** ** Global names and instance attributes *)

(** C10.  [energy], [energy_diff] and [find_edges] read [u] and [graph]
    from the global scope, not from the attributes: changing the
    attributes changes no result; when the globals hold the values of the
    attributes the results are those computed from the attributes; and
    there is a constructed instance, with attributes other than the
    globals, for which each of the three results differs from the one
    computed from the attributes. *)
Theorem globals_not_attributes :
  (forall (g : Globals) (self : UDMIS) (u1 : Q) (graph1 : list point) (i : Z),
     energy g (with_attributes self u1 graph1) = energy g self /\
     energy_diff g (with_attributes self u1 graph1) i = energy_diff g self i /\
     find_edges g (num_vertices (with_attributes self u1 graph1))
     = find_edges g (num_vertices self)) /\
  (forall (g : Globals) (self : UDMIS) (i : Z),
     global_u g = u self -> global_graph g = graph self ->
     energy g self = energy (attributes self) self /\
     energy_diff g self i = energy_diff (attributes self) self i /\
     find_edges g (num_vertices self) = find_edges (attributes self) (num_vertices self)) /\
  (__init__ other_globals (fun _ => 0.25%Q) 2 [(0, 0); (2, 0)]%float
   = Ok (other_udmis, fun _ => 0.25%Q) /\
   exists E E' dE dE' A',
     energy other_globals other_udmis = Ok E /\
     energy (attributes other_udmis) other_udmis = Ok E' /\
     ~ (E == E')%Q /\
     energy_diff other_globals other_udmis 0 = Ok dE /\
     energy_diff (attributes other_udmis) other_udmis 0 = Ok dE' /\
     ~ (dE == dE')%Q /\
     find_edges other_globals (num_vertices other_udmis) = Ok (edges other_udmis) /\
     find_edges (attributes other_udmis) (num_vertices other_udmis) = Ok A' /\
     edges other_udmis <> A').
Proof.
  split; [|split].
  - intros g self u1 graph1 i. split; [|split]; reflexivity.
  - intros g self i Hu Hg. split; [|split].
    + unfold energy, attributes. cbn [global_u]. now rewrite Hu.
    + unfold energy_diff, attributes. cbn [global_u]. now rewrite Hu.
    + unfold find_edges, attributes. cbn [global_graph]. now rewrite Hg.
  - split; [vm_compute; reflexivity|].
    do 5 eexists.
    split; [vm_compute; reflexivity|].
    split; [vm_compute; reflexivity|].
    split; [vm_compute; discriminate|].
    split; [vm_compute; reflexivity|].
    split; [vm_compute; reflexivity|].
    split; [vm_compute; discriminate|].
    split; [vm_compute; reflexivity|].
    split; [vm_compute; reflexivity|].
    discriminate.
Qed.

Lemma globals_not_attributes_witness :
  energy notebook_globals udmis = energy (attributes udmis) udmis /\
  energy_diff notebook_globals udmis 3 = energy_diff (attributes udmis) udmis 3 /\
  find_edges notebook_globals (num_vertices udmis)
  = find_edges (attributes udmis) (num_vertices udmis).
Proof.
  apply (proj1 (proj2 globals_not_attributes) notebook_globals udmis 3%Z);
    reflexivity.
Defined.

(** * Further properties of the code *)

(** ** Helper lemmas *)

(** A constructed instance, with any occupation array of the right
    length, is well formed and its adjacency is symmetric and without
    self-loops. *)
Lemma init_valid (g0 : Globals) (rng rng' : Rng) (u0 : Q) (graph0 : list point)
      (self0 : UDMIS) (occ : list bool) :
  __init__ g0 rng u0 graph0 = Ok (self0, rng') ->
  length occ = num_vertices self0 ->
  well_formed (with_occupations self0 occ) /\
  (forall a b, (a < num_vertices self0)%nat -> (b < num_vertices self0)%nat ->
               edge (edges self0) a b = edge (edges self0) b a) /\
  (forall a, (a < num_vertices self0)%nat -> edge (edges self0) a a = false).
Proof.
  intros Hinit Hlen.
  split; [exact (@init_well_formed g0 rng rng' u0 graph0 self0 occ Hinit Hlen)|].
  apply init_inv in Hinit. destruct Hinit as [_ [_ [Hn [_ HE]]]].
  rewrite <- Hn in HE. split.
  - intros a b Ha Hb. exact (@find_edges_sym g0 _ _ a b HE Ha Hb).
  - intros a Ha. exact (@find_edges_irrefl g0 _ _ a HE Ha).
Qed.

Lemma getitem_wrap {A : Type} (l : list A) (i : nat) :
  (i < length l)%nat ->
  getitem l (Z.of_nat i - Z.of_nat (length l)) = getitem l (Z.of_nat i).
Proof.
  intros Hi. unfold getitem. rewrite (norm_index_nat Hi).
  unfold norm_index.
  destruct (Z.leb_spec 0 (Z.of_nat i - Z.of_nat (length l))) as [H|_]; [lia|].
  simpl andb.
  destruct (Z.leb_spec (- Z.of_nat (length l)) (Z.of_nat i - Z.of_nat (length l)));
    [|lia].
  destruct (Z.ltb_spec (Z.of_nat i - Z.of_nat (length l)) 0); [|lia].
  simpl andb. cbv iota.
  replace (Z.to_nat (Z.of_nat (length l) + (Z.of_nat i - Z.of_nat (length l))))
    with i by lia.
  reflexivity.
Qed.

Lemma getitem_out_of_range {A : Type} (l : list A) (i : Z) :
  (i < - Z.of_nat (length l) \/ Z.of_nat (length l) <= i)%Z ->
  getitem l i = Raise (out_of_bounds i).
Proof.
  intros H. unfold getitem, norm_index.
  destruct (Z.leb_spec 0 i), (Z.ltb_spec i (Z.of_nat (length l))),
    (Z.leb_spec (- Z.of_nat (length l)) i), (Z.ltb_spec i 0);
    simpl; try reflexivity; lia.
Qed.

(** ** Construction *)


(** X2.  What the constructor returns: the instance holds the given [u]
    and [graph]; [occupations[i]] is read for every vertex and is true
    exactly when the [i]-th draw is below 0.5; an index from
    [num_vertices] on raises [OverflowError] when it lies in
    [[2^63, 2^64)] and [IndexError] otherwise; every [edges[i, j]] of two
    vertices can be read; the generator has advanced by [num_vertices]
    draws. *)
Theorem init_arrays (g : Globals) (rng rng' : Rng) (u0 : Q) (graph0 : list point)
        (self : UDMIS) :
  __init__ g rng u0 graph0 = Ok (self, rng') ->
  u self = u0 /\ graph self = graph0 /\ num_vertices self = length graph0 /\
  (forall i, (i < num_vertices self)%nat ->
             getitem (occupations self) (Z.of_nat i) = Ok (Qlt_bool (rng i) 0.5)) /\
  (forall i, (Z.of_nat (num_vertices self) <= i)%Z ->
             getitem (occupations self) i
             = Raise (if ((2 ^ 63 <=? i) && (i <? 2 ^ 64))%Z
                      then OverflowError else IndexError)) /\
  (forall i j, (i < num_vertices self)%nat -> (j < num_vertices self)%nat ->
               exists b, getitem2 (edges self) (Z.of_nat i) (Z.of_nat j) = Ok b) /\
  (forall k, rng' k = rng (num_vertices self + k)%nat).
Proof.
  intros Hinit.
  pose proof (init_inv _ _ _ _ Hinit) as [Hu [Hg [Hn [Hocc HE]]]].
  rewrite <- Hn in HE. apply find_edges_spec in HE. destruct HE as [Hs _].
  unfold __init__, np_random_rand in Hinit.
  apply bind_Ok in Hinit. destruct Hinit as [E [_ Hinit]].
  inversion Hinit; subst self rng'; clear Hinit. simpl in *.
  split; [reflexivity|]. split; [reflexivity|]. split; [reflexivity|].
  split; [|split; [|split]].
  - intros i Hi.
    rewrite (getitem_nth _ (Qlt_bool (rng 0%nat) 0.5))
      by (rewrite !length_map, length_seq; exact Hi).
    f_equal.
    rewrite (map_nth (fun r => Qlt_bool r 0.5) _ (rng 0%nat)).
    rewrite (map_nth rng). now rewrite seq_nth.
  - intros i Hi. apply (@getitem_out_of_range bool).
    rewrite !length_map, length_seq. right. exact Hi.
  - intros i j Hi Hj. exists (edge E i j). apply (getitem2_edge Hs Hi Hj).
  - reflexivity.
Qed.

Lemma init_arrays_witness :
  u udmis = 1.35%Q /\ graph udmis = global_graph notebook_globals /\
  num_vertices udmis = length (global_graph notebook_globals) /\
  (forall i, (i < num_vertices udmis)%nat ->
             getitem (occupations udmis) (Z.of_nat i) = Ok (Qlt_bool (rng0 i) 0.5)) /\
  (forall i, (Z.of_nat (num_vertices udmis) <= i)%Z ->
             getitem (occupations udmis) i
             = Raise (if ((2 ^ 63 <=? i) && (i <? 2 ^ 64))%Z
                      then OverflowError else IndexError)) /\
  (forall i j, (i < num_vertices udmis)%nat -> (j < num_vertices udmis)%nat ->
               exists b, getitem2 (edges udmis) (Z.of_nat i) (Z.of_nat j) = Ok b) /\
  (forall k, rng0 (6 + k)%nat = rng0 (num_vertices udmis + k)%nat).
Proof.
  apply (@init_arrays notebook_globals rng0 (fun k => rng0 (6 + k)%nat) 1.35
           (global_graph notebook_globals) udmis).
  vm_compute. reflexivity.
Defined.

(** ** The graph builder *)

(** X3.  [find_edges] reads the first [num_vertices] coordinates of the
    global [graph] only: two global graphs that agree on them give the
    same result (array or exception). *)
Theorem find_edges_prefix (g g' : Globals) (n : nat) :
  firstn n (global_graph g) = firstn n (global_graph g') ->
  find_edges g n = find_edges g' n.
Proof.
  intros H.
  assert (Hget : forall i, (i < n)%nat ->
            list_getitem (global_graph g) (Z.of_nat i)
            = list_getitem (global_graph g') (Z.of_nat i)).
  { intros i Hi. rewrite !list_getitem_nat.
    pose proof (nth_error_firstn n (global_graph g) i) as H1.
    pose proof (nth_error_firstn n (global_graph g') i) as H2.
    destruct (Nat.ltb_spec i n); [|lia].
    rewrite <- H1, <- H2, H. reflexivity. }
  rewrite !find_edges_unfold.
  apply for_each_ext. intros i E Hi. apply in_seq in Hi.
  rewrite Hget by lia.
  destruct (list_getitem (global_graph g') (Z.of_nat i)) as [p_i|e]; simpl;
    [|reflexivity].
  apply for_each_ext. intros j E' Hj. apply in_seq in Hj.
  rewrite Hget by lia. reflexivity.
Qed.

Lemma find_edges_prefix_witness :
  find_edges notebook_globals 2
  = find_edges (with_global_graph notebook_globals
                  [(0.3461717838632017, 1.4984640297338632);
                   (0.6316400411846113, 2.5754677320579895)]%float) 2.
Proof.
  apply find_edges_prefix. reflexivity.
Defined.

(** X16.  Which exception the builder raises.  When [find_edges] raises,
    there is a first pair of vertices [a < b], in the order of the loops,
    on which the distance could not be computed: every pair visited
    before it has coordinates and a computed [dij].  The exception is
    [IndexError] when the global graph lacks the coordinates of [a] or of
    [b], and [OverflowError] when it has both and a square of their
    coordinate differences is not a finite float. *)
Theorem find_edges_failure (g : Globals) (n : nat) (e : exn) :
  find_edges g n = Raise e ->
  exists a b,
    (a < b < n)%nat /\
    (forall a' b', (a' < b' < n)%nat -> scanned a b a' b' = true ->
                   measured (global_graph g) a' b' = true) /\
    match nth_error (global_graph g) a, nth_error (global_graph g) b with
    | Some p, Some q => dij p q = Raise OverflowError /\ e = OverflowError
    | _, _ => e = IndexError
    end.
Proof.
  rewrite find_edges_unfold. intros Hrun.
  set (G := global_graph g) in *.
  destruct (@for_each_seq_raise _ (fun i E => edges_upto G n i 0 E) _ _ _ _ _
              (edges_upto_zeros G n)
              (fun i E0 E1 (Hi : (0 <= i < 0 + (n - 1))%nat) Hinv Hbody =>
                 @find_edges_outer_step G n i E0 E1 (proj2 Hi) Hinv Hbody)
              Hrun) as [i [E [Hi [Hinv Hbody]]]].
  rewrite list_getitem_nat in Hbody.
  destruct (nth_error G i) as [p_i|] eqn:Hpi; cbn [bind] in Hbody.
  - assert (Hrow : forall j E2 E3, (S i <= j < S i + (n - S i))%nat ->
                       edges_upto G n i j E2 ->
                       (p_j <- list_getitem G (Z.of_nat j) ;;
                        d <- dij p_i p_j ;;
                        if (d <=? 1)%float then
                          edges <- setitem2 E2 (Z.of_nat i) (Z.of_nat j) true ;;
                          setitem2 edges (Z.of_nat j) (Z.of_nat i) true
                        else Ok E2) = Ok E3 ->
                       edges_upto G n i (S j) E3).
    { intros j E2 E3 Hj Hinv2 Hstep.
      apply (find_edges_inner_step (i:=i) (j:=j) (p_i:=p_i) (E:=E2)); auto; lia. }
    destruct (@for_each_seq_raise _ (fun j E => edges_upto G n i j E) _ _ _ _ _
                (edges_upto_row_start Hinv) Hrow Hbody)
      as [j [E' [Hj [Hinv' Hbody']]]].
    exists i, j. split; [lia|]. split.
    + intros a' b' Hab Hsc. destruct Hinv' as [_ [_ Hc]]. exact (Hc a' b' Hab Hsc).
    + rewrite Hpi. rewrite list_getitem_nat in Hbody'.
      destruct (nth_error G j) as [p_j|]; cbn [bind] in Hbody'.
      * destruct (dij p_i p_j) as [d|e'] eqn:Hd; cbn [bind] in Hbody'.
        -- exfalso. destruct Hinv' as [Hs _].
           destruct (d <=? 1)%float; [|discriminate].
           rewrite (setitem2_update2 (n:=n)) in Hbody' by (auto; lia).
           cbn [bind] in Hbody'.
           rewrite (setitem2_update2 (n:=n)) in Hbody'
             by (try apply shape_update2; auto; lia).
           discriminate.
        -- inversion Hbody'; subst e'.
           pose proof (dij_raises _ _ Hd) as He. subst e. auto.
      * now inversion Hbody'.
  - inversion Hbody; subst e. exists i, (S i). split; [lia|]. split.
    + intros a' b' Hab Hsc. destruct Hinv as [_ [_ Hc]]. apply (Hc a' b' Hab).
      unfold scanned in *. revert Hsc. nat_cases; auto.
    + rewrite Hpi. reflexivity.
Qed.

Lemma find_edges_failure_witness :
  exists a b,
    (a < b < 2)%nat /\
    (forall a' b', (a' < b' < 2)%nat -> scanned a b a' b' = true ->
                   measured (global_graph far_globals) a' b' = true) /\
    match nth_error (global_graph far_globals) a,
          nth_error (global_graph far_globals) b with
    | Some p, Some q => dij p q = Raise OverflowError /\ OverflowError = OverflowError
    | _, _ => OverflowError = IndexError
    end.
Proof.
  apply (@find_edges_failure far_globals 2 OverflowError).
  vm_compute. reflexivity.
Defined.

(** ** Exceptions *)


(** ** The energy *)

Lemma sumZ_nonneg {A : Type} (f : A -> Z) (l : list A) :
  (forall x, In x l -> (0 <= f x)%Z) -> (0 <= sumZ f l)%Z.
Proof.
  induction l as [|x l IH]; intros H; simpl; [lia|].
  pose proof (H x (or_introl eq_refl)).
  assert (0 <= sumZ f l)%Z by (apply IH; intros y Hy; apply H; right; exact Hy).
  lia.
Qed.

Lemma sumZ_ge_term {A : Type} (f : A -> Z) (l : list A) (b : A) :
  (forall x, In x l -> (0 <= f x)%Z) -> In b l -> (f b <= sumZ f l)%Z.
Proof.
  induction l as [|x l IH]; intros H Hb; simpl; [contradiction|].
  pose proof (H x (or_introl eq_refl)).
  assert (0 <= sumZ f l)%Z
    by (apply sumZ_nonneg; intros y Hy; apply H; right; exact Hy).
  destruct Hb as [->|Hb]; [lia|].
  assert (f b <= sumZ f l)%Z
    by (apply IH; [intros y Hy; apply H; right; exact Hy | exact Hb]).
  lia.
Qed.

Lemma sumZ_all_zero {A : Type} (f : A -> Z) (l : list A) :
  (forall x, In x l -> f x = 0%Z) -> sumZ f l = 0%Z.
Proof.
  intros H. rewrite (sumZ_ext f (fun _ => 0%Z) l H). apply sumZ_zero.
Qed.

Lemma sumZ_pos_exists {A : Type} (f : A -> Z) (l : list A) :
  (0 < sumZ f l)%Z -> exists x, In x l /\ f x <> 0%Z.
Proof.
  induction l as [|x l IH]; simpl; intros H; [lia|].
  destruct (Z.eq_dec (f x) 0) as [Hx|Hx].
  - destruct IH as [y [Hy Hfy]]; [lia|]. exists y. auto.
  - exists x. auto.
Qed.

Lemma occupied_neighbours_nonneg (e : nat -> nat -> bool) (o : nat -> bool) (i n : nat) :
  (0 <= occupied_neighbours e o i n)%Z.
Proof.
  apply sumZ_nonneg. intros b _. destruct (e i b && o b); simpl; lia.
Qed.

Lemma interaction_sum_nonneg (e : nat -> nat -> bool) (o : nat -> bool) (n : nat) :
  (0 <= interaction_sum e o n)%Z.
Proof.
  apply sumZ_nonneg. intros a _. apply sumZ_nonneg. intros b _.
  unfold pair_term. destruct (e a b), (o a), (o b); simpl; lia.
Qed.

Lemma vertex_sum_count (occ : list bool) (n : nat) :
  vertex_sum (occ_at occ) n = occupied_count occ n.
Proof. apply sumZ_count. Qed.

Lemma occupied_count_le (occ : list bool) (n : nat) :
  (0 <= occupied_count occ n <= Z.of_nat n)%Z.
Proof.
  unfold occupied_count. split; [lia|].
  pose proof (filter_length_le (occ_at occ) (seq 0 n)) as H.
  rewrite length_seq in H. lia.
Qed.

Lemma independentb_spec (E : matrix) (occ : list bool) (n : nat) :
  independentb E occ n = true <-> independent E occ n.
Proof.
  unfold independentb, independent. rewrite forallb_forall. split.
  - intros H a b Ha Hb Hab Hoa.
    specialize (H a ltac:(apply in_seq; lia)).
    rewrite forallb_forall in H.
    specialize (H b ltac:(apply in_seq; lia)).
    rewrite Hab, Hoa in H. simpl in H. now destruct (occ_at occ b).
  - intros H a Ha. apply in_seq in Ha. apply forallb_forall. intros b Hb.
    apply in_seq in Hb.
    destruct (edge E a b) eqn:Hab; [|reflexivity].
    destruct (occ_at occ a) eqn:Hoa; [|reflexivity].
    rewrite (H a b) by (auto; lia). reflexivity.
Qed.

Lemma maximalb_spec (E : matrix) (occ : list bool) (n : nat) :
  maximalb E occ n = true <-> maximal E occ n.
Proof.
  unfold maximalb, maximal. rewrite forallb_forall. split.
  - intros H a Ha Hoa.
    specialize (H a ltac:(apply in_seq; lia)).
    rewrite Hoa in H. simpl in H. apply existsb_exists in H.
    destruct H as [b [Hb H]]. apply in_seq in Hb.
    apply andb_true_iff in H. exists b. split; [lia | exact H].
  - intros H a Ha. apply in_seq in Ha.
    destruct (occ_at occ a) eqn:Hoa; [reflexivity|]. simpl.
    destruct (H a ltac:(lia) Hoa) as [b [Hb [Hab Hob]]].
    apply existsb_exists. exists b. split; [apply in_seq; lia|].
    now rewrite Hab, Hob.
Qed.

(** X6.  On an independent set the interaction term vanishes: if no two
    adjacent vertices are both occupied, [energy()] is minus the number
    of occupied vertices, whatever [u]. *)
Theorem energy_independent_set
        (g0 g : Globals) (rng rng' : Rng) (u0 : Q) (graph0 : list point)
        (self0 : UDMIS) (occ : list bool) :
  __init__ g0 rng u0 graph0 = Ok (self0, rng') ->
  length occ = num_vertices self0 ->
  (1 <= num_vertices self0)%nat ->
  independentb (edges self0) occ (num_vertices self0) = true ->
  exists E0,
    energy g (with_occupations self0 occ) = Ok E0 /\
    (E0 == - inject_Z (occupied_count occ (num_vertices self0)))%Q.
Proof.
  intros Hinit Hlen Hn Hind. apply independentb_spec in Hind.
  destruct (@init_valid g0 rng rng' u0 graph0 self0 occ Hinit Hlen) as [Hwf _].
  eexists. split; [apply (energy_closed g Hwf); simpl; lia|]. simpl.
  rewrite vertex_sum_count.
  replace (interaction_sum (edge (edges self0)) (occ_at occ) (num_vertices self0))
    with 0%Z; [ring|].
  symmetry. apply sumZ_all_zero. intros a Ha. apply in_seq in Ha.
  apply sumZ_all_zero. intros b Hb. apply in_seq in Hb.
  unfold pair_term.
  destruct (edge (edges self0) a b) eqn:Hab; [|reflexivity].
  destruct (occ_at occ a) eqn:Hoa; [|reflexivity].
  rewrite (Hind a b) by (auto; lia). reflexivity.
Qed.

Lemma energy_independent_set_witness :
  exists E0,
    energy notebook_globals
           (with_occupations udmis [false; false; true; true; true; false]) = Ok E0 /\
    (E0 == - inject_Z (occupied_count [false; false; true; true; true; false] 6))%Q.
Proof.
  apply (@energy_independent_set notebook_globals notebook_globals rng0
           (fun k => rng0 (6 + k)%nat) 1.35 (global_graph notebook_globals)
           udmis [false; false; true; true; true; false]).
  - vm_compute. reflexivity.
  - reflexivity.
  - simpl. lia.
  - vm_compute. reflexivity.
Defined.

(** X7.  A lower bound: with [u >= 0], [energy()] is at least minus the
    number of occupied vertices, hence at least [- num_vertices]. *)
Theorem energy_lower_bound
        (g0 g : Globals) (rng rng' : Rng) (u0 : Q) (graph0 : list point)
        (self0 : UDMIS) (occ : list bool) :
  __init__ g0 rng u0 graph0 = Ok (self0, rng') ->
  length occ = num_vertices self0 ->
  (1 <= num_vertices self0)%nat ->
  (0 <= global_u g)%Q ->
  exists E0,
    energy g (with_occupations self0 occ) = Ok E0 /\
    (- inject_Z (occupied_count occ (num_vertices self0)) <= E0)%Q /\
    (- inject_Z (Z.of_nat (num_vertices self0)) <= E0)%Q.
Proof.
  intros Hinit Hlen Hn Hu.
  destruct (@init_valid g0 rng rng' u0 graph0 self0 occ Hinit Hlen) as [Hwf _].
  eexists. split; [apply (energy_closed g Hwf); simpl; lia|]. simpl.
  rewrite vertex_sum_count.
  pose proof (interaction_sum_nonneg (edge (edges self0)) (occ_at occ)
                                     (num_vertices self0)) as HI.
  pose proof (occupied_count_le occ (num_vertices self0)) as [_ HV].
  rewrite Zle_Qle in HI, HV.
  change (inject_Z 0) with 0%Q in HI.
  split; Lqa.nra.
Qed.

Lemma energy_lower_bound_witness :
  exists E0,
    energy notebook_globals
           (with_occupations udmis [true; true; false; true; false; true]) = Ok E0 /\
    (- inject_Z (occupied_count [true; true; false; true; false; true] 6) <= E0)%Q /\
    (- inject_Z 6 <= E0)%Q.
Proof.
  apply (@energy_lower_bound notebook_globals notebook_globals rng0
           (fun k => rng0 (6 + k)%nat) 1.35 (global_graph notebook_globals)
           udmis [true; true; false; true; false; true]).
  - vm_compute. reflexivity.
  - reflexivity.
  - simpl. lia.
  - unfold Qle. simpl. lia.
Defined.

(** ** The energy difference *)

(** X8.  The index of [energy_diff]: a negative index from
    [- num_vertices] on counts from the end, as NumPy indexing does, so
    that [energy_diff(i - num_vertices)] is [energy_diff(i)]; an index
    below [- num_vertices] or from [num_vertices] on raises, at
    [self.edges[i,:]]: [OverflowError] when it lies in [[2^63, 2^64)],
    [IndexError] otherwise. *)
Theorem energy_diff_index
        (g0 g : Globals) (rng rng' : Rng) (u0 : Q) (graph0 : list point)
        (self0 : UDMIS) (occ : list bool) :
  __init__ g0 rng u0 graph0 = Ok (self0, rng') ->
  length occ = num_vertices self0 ->
  (forall i, (i < num_vertices self0)%nat ->
     energy_diff g (with_occupations self0 occ)
                 (Z.of_nat i - Z.of_nat (num_vertices self0))
     = energy_diff g (with_occupations self0 occ) (Z.of_nat i)) /\
  (forall i, (i < - Z.of_nat (num_vertices self0)
              \/ Z.of_nat (num_vertices self0) <= i)%Z ->
     energy_diff g (with_occupations self0 occ) i
     = Raise (if ((2 ^ 63 <=? i) && (i <? 2 ^ 64))%Z
              then OverflowError else IndexError)).
Proof.
  intros Hinit Hlen.
  destruct (@init_valid g0 rng rng' u0 graph0 self0 occ Hinit Hlen)
    as [[[HE _] _] _].
  simpl in HE. split.
  - intros i Hi. unfold energy_diff. simpl edges. simpl occupations.
    rewrite <- HE at 1. rewrite getitem_wrap by lia.
    destruct (getitem (edges self0) (Z.of_nat i)) as [row|e]; simpl; [|reflexivity].
    destruct (take occ (np_where row)) as [adjacent|e]; simpl; [|reflexivity].
    rewrite <- Hlen. rewrite getitem_wrap by lia. reflexivity.
  - intros i Hi. unfold energy_diff. simpl edges.
    rewrite getitem_out_of_range by (rewrite HE; exact Hi). reflexivity.
Qed.

Lemma energy_diff_index_witness :
  (forall i, (i < 6)%nat ->
     energy_diff notebook_globals udmis (Z.of_nat i - 6)
     = energy_diff notebook_globals udmis (Z.of_nat i)) /\
  (forall i, (i < - 6 \/ 6 <= i)%Z ->
     energy_diff notebook_globals udmis i
     = Raise (if ((2 ^ 63 <=? i) && (i <? 2 ^ 64))%Z
              then OverflowError else IndexError)).
Proof.
  apply (@energy_diff_index notebook_globals notebook_globals rng0
           (fun k => rng0 (6 + k)%nat) 1.35 (global_graph notebook_globals)
           udmis (occupations udmis)).
  - vm_compute. reflexivity.
  - reflexivity.
Defined.

(** X9.  Locality: [energy_diff(i)] depends on the occupations of [i] and
    of its neighbours only. *)
Theorem energy_diff_local
        (g0 g : Globals) (rng rng' : Rng) (u0 : Q) (graph0 : list point)
        (self0 : UDMIS) (occ occ' : list bool) (i : nat) :
  __init__ g0 rng u0 graph0 = Ok (self0, rng') ->
  length occ = num_vertices self0 ->
  length occ' = num_vertices self0 ->
  (i < num_vertices self0)%nat ->
  same_neighbourhood (edges self0) i (num_vertices self0) occ occ' = true ->
  energy_diff g (with_occupations self0 occ) (Z.of_nat i)
  = energy_diff g (with_occupations self0 occ') (Z.of_nat i).
Proof.
  intros Hinit Hlen Hlen' Hi Hsame.
  apply andb_true_iff in Hsame. destruct Hsame as [Hoi Hnb].
  apply Bool.eqb_prop in Hoi. rewrite forallb_forall in Hnb.
  destruct (@init_valid g0 rng rng' u0 graph0 self0 occ Hinit Hlen) as [Hwf _].
  destruct (@init_valid g0 rng rng' u0 graph0 self0 occ' Hinit Hlen') as [Hwf' _].
  rewrite (energy_diff_closed g Hwf Hi), (energy_diff_closed g Hwf' Hi). simpl.
  rewrite Hoi.
  replace (occupied_neighbours (edge (edges self0)) (occ_at occ) i (num_vertices self0))
    with (occupied_neighbours (edge (edges self0)) (occ_at occ') i (num_vertices self0));
    [reflexivity|].
  apply sumZ_ext. intros j Hj. specialize (Hnb j Hj).
  destruct (edge (edges self0) i j) eqn:Hij; [|reflexivity].
  simpl in Hnb. apply Bool.eqb_prop in Hnb. now rewrite Hnb.
Qed.

Lemma energy_diff_local_witness :
  energy_diff notebook_globals
              (with_occupations udmis [false; true; false; true; false; true]) 2
  = energy_diff notebook_globals
                (with_occupations udmis [true; true; false; false; true; false]) 2.
Proof.
  apply (@energy_diff_local notebook_globals notebook_globals rng0
           (fun k => rng0 (6 + k)%nat) 1.35 (global_graph notebook_globals)
           udmis [false; true; false; true; false; true]
           [true; true; false; false; true; false] 2%nat).
  - vm_compute. reflexivity.
  - reflexivity.
  - reflexivity.
  - simpl. lia.
  - vm_compute. reflexivity.
Defined.

Lemma occupied_neighbours_negated (E : matrix) (occ : list bool) (i n : nat) :
  (i < length occ)%nat -> edge E i i = false ->
  occupied_neighbours (edge E) (occ_at (negated_at occ i)) i n
  = occupied_neighbours (edge E) (occ_at occ) i n.
Proof.
  intros Hi Hii. apply sumZ_ext. intros b _.
  unfold negated_at. rewrite occ_at_update by exact Hi.
  destruct (Nat.eqb_spec b i) as [->|_]; [|reflexivity].
  now rewrite Hii.
Qed.

(** X10.  Flipping back: once [occupations[i]] is negated,
    [energy_diff(i)] is the opposite of what it was. *)
Theorem energy_diff_flip_back
        (g0 g : Globals) (rng rng' : Rng) (u0 : Q) (graph0 : list point)
        (self0 : UDMIS) (occ : list bool) (i : nat) :
  __init__ g0 rng u0 graph0 = Ok (self0, rng') ->
  length occ = num_vertices self0 ->
  (i < num_vertices self0)%nat ->
  exists dE dE',
    energy_diff g (with_occupations self0 occ) (Z.of_nat i) = Ok dE /\
    energy_diff g (with_occupations self0 (negated_at occ i)) (Z.of_nat i) = Ok dE' /\
    (dE' == - dE)%Q.
Proof.
  intros Hinit Hlen Hi.
  destruct (@init_valid g0 rng rng' u0 graph0 self0 occ Hinit Hlen)
    as [Hwf [_ Hirr]].
  assert (Hlen' : length (negated_at occ i) = num_vertices self0)
    by (unfold negated_at; now rewrite length_update).
  destruct (@init_valid g0 rng rng' u0 graph0 self0 _ Hinit Hlen') as [Hwf' _].
  eexists. eexists.
  split; [apply (energy_diff_closed g Hwf Hi)|].
  split; [apply (energy_diff_closed g Hwf' Hi)|].
  simpl.
  rewrite occupied_neighbours_negated by (auto; lia).
  unfold negated_at at 1. rewrite occ_at_update by lia. rewrite Nat.eqb_refl.
  destruct (occ_at occ i); simpl; ring.
Qed.

Lemma energy_diff_flip_back_witness :
  exists dE dE',
    energy_diff notebook_globals udmis 3 = Ok dE /\
    energy_diff notebook_globals
                (with_occupations udmis (negated_at (occupations udmis) 3)) 3
    = Ok dE' /\
    (dE' == - dE)%Q.
Proof.
  apply (@energy_diff_flip_back notebook_globals notebook_globals rng0
           (fun k => rng0 (6 + k)%nat) 1.35 (global_graph notebook_globals)
           udmis (occupations udmis) 3%nat).
  - vm_compute. reflexivity.
  - reflexivity.
  - simpl. lia.
Defined.

(** X11.  Local minima and maximal independent sets: with [u > 1], every
    single flip has a positive [energy_diff] exactly when the occupied
    vertices form a maximal independent set (no two of them adjacent,
    every other vertex adjacent to one of them). *)
Theorem local_minimum_iff_maximal_independent
        (g0 g : Globals) (rng rng' : Rng) (u0 : Q) (graph0 : list point)
        (self0 : UDMIS) (occ : list bool) :
  __init__ g0 rng u0 graph0 = Ok (self0, rng') ->
  length occ = num_vertices self0 ->
  (1 < global_u g)%Q ->
  (forall i, (i < num_vertices self0)%nat ->
     exists dE, energy_diff g (with_occupations self0 occ) (Z.of_nat i) = Ok dE /\
                (0 < dE)%Q)
  <->
  independentb (edges self0) occ (num_vertices self0)
  && maximalb (edges self0) occ (num_vertices self0) = true.
Proof.
  intros Hinit Hlen Hu.
  destruct (@init_valid g0 rng rng' u0 graph0 self0 occ Hinit Hlen) as [Hwf _].
  set (n := num_vertices self0) in *. set (E := edges self0) in *.
  assert (Hclosed : forall i, (i < n)%nat ->
            energy_diff g (with_occupations self0 occ) (Z.of_nat i) =
            Ok (if occ_at occ i
                then - global_u g * inject_Z (occupied_neighbours (edge E) (occ_at occ) i n) + 1
                else global_u g * inject_Z (occupied_neighbours (edge E) (occ_at occ) i n)
                     + (-1))%Q).
  { intros i Hi. apply (energy_diff_closed g Hwf Hi). }
  rewrite andb_true_iff, independentb_spec, maximalb_spec.
  split.
  - intros H. split.
    + intros a b Ha Hb Hab Hoa.
      destruct (occ_at occ b) eqn:Hob; [exfalso|reflexivity].
      destruct (H a Ha) as [dE [HdE Hpos]].
      rewrite (Hclosed a Ha) in HdE. inversion HdE; subst dE; clear HdE.
      rewrite Hoa in Hpos.
      assert (Hk : (1 <= occupied_neighbours (edge E) (occ_at occ) a n)%Z).
      { pose proof (@sumZ_ge_term nat (fun b => Z.b2z (edge E a b && occ_at occ b))
                      (seq 0 n) b) as Hge.
        simpl in Hge. rewrite Hab, Hob in Hge. simpl in Hge.
        apply Hge; [|apply in_seq; lia].
        intros x _. destruct (edge E a x && occ_at occ x); simpl; lia. }
      rewrite Zle_Qle in Hk. change (inject_Z 1) with 1%Q in Hk.
      Lqa.nra.
    + intros a Ha Hoa.
      destruct (H a Ha) as [dE [HdE Hpos]].
      rewrite (Hclosed a Ha) in HdE. inversion HdE; subst dE; clear HdE.
      rewrite Hoa in Hpos.
      pose proof (occupied_neighbours_nonneg (edge E) (occ_at occ) a n) as Hk0.
      destruct (Z.eq_dec (occupied_neighbours (edge E) (occ_at occ) a n) 0) as [Hz|Hnz].
      * rewrite Hz in Hpos. exfalso. revert Hpos. unfold Qlt. simpl. lia.
      * destruct (@sumZ_pos_exists nat (fun b => Z.b2z (edge E a b && occ_at occ b))
                    (seq 0 n)) as [b [Hb Hterm]].
        { unfold occupied_neighbours in *. lia. }
        apply in_seq in Hb. exists b. split; [lia|].
        apply andb_true_iff.
        destruct (edge E a b && occ_at occ b); [reflexivity | now elim Hterm].
  - intros [Hind Hmax] i Hi.
    eexists. split; [apply (Hclosed i Hi)|].
    destruct (occ_at occ i) eqn:Hoi.
    + replace (occupied_neighbours (edge E) (occ_at occ) i n) with 0%Z.
      * unfold Qlt. simpl. lia.
      * symmetry. apply sumZ_all_zero. intros b Hb. apply in_seq in Hb.
        destruct (edge E i b) eqn:Hib; [|reflexivity].
        rewrite (Hind i b) by (auto; lia). reflexivity.
    + destruct (Hmax i Hi Hoi) as [b [Hb [Hib Hob]]].
      assert (Hk : (1 <= occupied_neighbours (edge E) (occ_at occ) i n)%Z).
      { pose proof (@sumZ_ge_term nat (fun b => Z.b2z (edge E i b && occ_at occ b))
                      (seq 0 n) b) as Hge.
        simpl in Hge. rewrite Hib, Hob in Hge. simpl in Hge.
        apply Hge; [|apply in_seq; lia].
        intros x _. destruct (edge E i x && occ_at occ x); simpl; lia. }
      rewrite Zle_Qle in Hk. change (inject_Z 1) with 1%Q in Hk.
      Lqa.nra.
Qed.

Lemma local_minimum_iff_maximal_independent_witness :
  (forall i, (i < 6)%nat ->
     exists dE,
       energy_diff notebook_globals
                   (with_occupations udmis [false; false; true; true; true; false])
                   (Z.of_nat i) = Ok dE /\
       (0 < dE)%Q)
  <->
  independentb (edges udmis) [false; false; true; true; true; false] 6
  && maximalb (edges udmis) [false; false; true; true; true; false] 6 = true.
Proof.
  apply (@local_minimum_iff_maximal_independent notebook_globals notebook_globals rng0
           (fun k => rng0 (6 + k)%nat) 1.35 (global_graph notebook_globals)
           udmis [false; false; true; true; true; false]).
  - vm_compute. reflexivity.
  - reflexivity.
  - unfold Qlt. simpl. lia.
Defined.

(** ** Energy along a sequence of flips *)

(** Negating one occupation changes [energy()] by [energy_diff]. *)
Lemma energy_negated (g : Globals) (self0 : UDMIS) (occ : list bool) (i : nat) :
  well_formed (with_occupations self0 occ) ->
  (forall a b, (a < num_vertices self0)%nat -> (b < num_vertices self0)%nat ->
               edge (edges self0) a b = edge (edges self0) b a) ->
  (forall a, (a < num_vertices self0)%nat -> edge (edges self0) a a = false) ->
  (i < num_vertices self0)%nat ->
  exists E0 E1 dE,
    energy g (with_occupations self0 occ) = Ok E0 /\
    energy g (with_occupations self0 (negated_at occ i)) = Ok E1 /\
    energy_diff g (with_occupations self0 occ) (Z.of_nat i) = Ok dE /\
    (E1 == E0 + dE)%Q.
Proof.
  intros Hwf Hsym Hirr Hi.
  assert (Hlen : length occ = num_vertices self0) by (destruct Hwf as [_ H]; exact H).
  assert (Hwf' : well_formed (with_occupations self0 (negated_at occ i))).
  { destruct Hwf as [Hs _]. split; [exact Hs|]. simpl.
    unfold negated_at. now rewrite length_update. }
  eexists. eexists. eexists.
  split; [apply (energy_closed g Hwf); simpl; lia|].
  split; [apply (energy_closed g Hwf'); simpl; lia|].
  split; [apply (energy_diff_closed g Hwf Hi)|].
  simpl.
  assert (Hflip : forall a, occ_at (negated_at occ i) a = flipped (occ_at occ) i a).
  { intros a. unfold flipped, negated_at. apply occ_at_update. lia. }
  rewrite (interaction_sum_ext (edge (edges self0)) _ _ (num_vertices self0) Hflip).
  rewrite (vertex_sum_ext _ _ (num_vertices self0) Hflip).
  rewrite (@interaction_sum_flipped (edge (edges self0)) (occ_at occ) i
             (num_vertices self0) Hi Hsym Hirr).
  rewrite (@vertex_sum_flipped (occ_at occ) i (num_vertices self0) Hi).
  rewrite !inject_Z_plus, inject_Z_mult.
  unfold delta. destruct (occ_at occ i); simpl inject_Z; ring.
Qed.

(** X12.  The running energy: along any sequence of flips of vertices,
    the energy of the instance reached is the initial energy plus the sum
    of the [energy_diff] values met on the way, so that [energy()] need
    not be called again. *)
Theorem energy_telescopes
        (g0 g : Globals) (rng rng' : Rng) (u0 : Q) (graph0 : list point)
        (self0 : UDMIS) (occ : list bool) (flips : list nat) :
  __init__ g0 rng u0 graph0 = Ok (self0, rng') ->
  length occ = num_vertices self0 ->
  (1 <= num_vertices self0)%nat ->
  forallb (fun i => i <? num_vertices self0)%nat flips = true ->
  exists E0 ds self' E1,
    energy g (with_occupations self0 occ) = Ok E0 /\
    deltas g (with_occupations self0 occ) flips = Ok (ds, self') /\
    length ds = length flips /\
    energy g self' = Ok E1 /\
    (E1 == E0 + sumQ ds)%Q.
Proof.
  intros Hinit Hlen Hn Hflips.
  destruct (@init_valid g0 rng rng' u0 graph0 self0 occ Hinit Hlen)
    as [Hwf [Hsym Hirr]].
  clear Hinit. revert occ Hlen Hwf.
  induction flips as [|i flips IH]; intros occ Hlen Hwf.
  - eexists. exists [], (with_occupations self0 occ). eexists.
    split; [apply (energy_closed g Hwf); simpl; lia|].
    split; [reflexivity|]. split; [reflexivity|].
    split; [apply (energy_closed g Hwf); simpl; lia|].
    simpl. ring.
  - simpl in Hflips. apply andb_true_iff in Hflips. destruct Hflips as [Hi Hflips].
    apply Nat.ltb_lt in Hi.
    destruct (@energy_negated g self0 occ i Hwf Hsym Hirr Hi)
      as [E0 [Emid [dE [HE0 [HEmid [HdE Heq]]]]]].
    assert (Hlen' : length (negated_at occ i) = num_vertices self0)
      by (unfold negated_at; now rewrite length_update).
    assert (Hwf' : well_formed (with_occupations self0 (negated_at occ i))).
    { destruct Hwf as [Hs _]. split; [exact Hs | exact Hlen']. }
    destruct (IH Hflips (negated_at occ i) Hlen' Hwf')
      as [Emid' [ds [self' [E1 [HEmid' [Hds [Hlds [HE1 Heq']]]]]]]].
    rewrite HEmid in HEmid'. inversion HEmid'; subst Emid'; clear HEmid'.
    exists E0, (dE :: ds), self', E1.
    split; [exact HE0|]. split.
    + cbn [deltas]. rewrite HdE. cbn [bind].
      change (with_occupations (with_occupations self0 occ)
                (negated_at (occupations (with_occupations self0 occ)) i))
        with (with_occupations self0 (negated_at occ i)).
      rewrite Hds. reflexivity.
    + split; [simpl; now rewrite Hlds|]. split; [exact HE1|].
      simpl. rewrite Heq', Heq. ring.
Qed.

Lemma energy_telescopes_witness :
  exists E0 ds self' E1,
    energy notebook_globals udmis = Ok E0 /\
    deltas notebook_globals udmis [1; 2; 4; 1; 5]%nat = Ok (ds, self') /\
    length ds = 5%nat /\
    energy notebook_globals self' = Ok E1 /\
    (E1 == E0 + sumQ ds)%Q.
Proof.
  apply (@energy_telescopes notebook_globals notebook_globals rng0
           (fun k => rng0 (6 + k)%nat) 1.35 (global_graph notebook_globals)
           udmis (occupations udmis) [1; 2; 4; 1; 5]%nat).
  - vm_compute. reflexivity.
  - reflexivity.
  - simpl. lia.
  - reflexivity.
Defined.

(** ** The random vertex *)

(** X13.  [rand_vertex] raises [ValueError] on an instance without
    vertices; otherwise, the draws of the generator being in [0, 1), it
    returns a vertex index in [0, num_vertices).  (Which index, and the
    state the generator is left in, are not stated: the sampler is
    abstracted.) *)
Theorem rand_vertex_range (self : UDMIS) (rng : Rng) :
  (0 <= rng 0%nat < 1)%Q ->
  if (num_vertices self =? 0)%nat
  then rand_vertex self rng = Raise ValueError
  else exists v rng', (0 <= v < Z.of_nat (num_vertices self))%Z /\
                      rand_vertex self rng = Ok (v, rng').
Proof.
  intros Hr. destruct (Nat.eqb_spec (num_vertices self) 0) as [H0|H0].
  - unfold rand_vertex, np_random_randint. now rewrite H0.
  - destruct (@rand_vertex_in_range self rng ltac:(lia) Hr) as [i [Hi Hrand]].
    exists (Z.of_nat i). eexists. split; [lia | exact Hrand].
Qed.

Lemma rand_vertex_range_witness :
  exists v rng', (0 <= v < 6)%Z /\ rand_vertex udmis rng0 = Ok (v, rng').
Proof.
  apply (@rand_vertex_range udmis rng0).
  split; [unfold Qle | unfold Qlt]; simpl; lia.
Defined.

(** ** The annealing cell *)

(** X14.  With [T_i = 0] the annealing cell raises [ZeroDivisionError]
    while it computes the schedule, before any step is made. *)
Theorem anneal_zero_initial_temperature
        (pow : Q -> Q -> Q) (State : Type) (mc_step : Q -> State -> result (Q * State))
        (occupations_of : State -> list bool) (T_i T_f : Q) (N : nat) (udmis0 : State) :
  (T_i == 0)%Q ->
  temperatures pow T_i T_f N = Raise ZeroDivisionError /\
  anneal pow mc_step occupations_of T_i T_f N udmis0 = Raise ZeroDivisionError.
Proof.
  intros H.
  assert (HT : temperatures pow T_i T_f N = Raise ZeroDivisionError).
  { unfold temperatures, truediv.
    apply Qeq_bool_iff in H. now rewrite H. }
  split; [exact HT|]. unfold anneal. now rewrite HT.
Qed.

Lemma anneal_zero_initial_temperature_witness :
  temperatures (fun b e => b ^ Qfloor e)%Q 0 0.01 5000 = Raise ZeroDivisionError /\
  anneal (fun b e => b ^ Qfloor e)%Q recording_step (fun _ => []) 0 0.01 5000 []
  = Raise ZeroDivisionError.
Proof.
  apply (@anneal_zero_initial_temperature (fun b e => b ^ Qfloor e)%Q (list Q)
           recording_step (fun _ => []) 0 0.01 5000 []).
  reflexivity.
Defined.

(** The loop over any list of step indices, with an engine that always
    returns: it returns, and prints at the multiples of 100. *)
Lemma rounds_print (State : Type) (mc_step : Q -> State -> result (Q * State))
      (occupations_of : State -> list bool) (f : Z -> Q) (l : list Z)
      (st : State) (out : list line) :
  (forall T s, exists E s', mc_step T s = Ok (E, s')) ->
  exists st' out',
    for_each l (fun t acc => round mc_step occupations_of (f t) t acc) (st, out)
    = Ok (st', out ++ out') /\
    map (fun ln : line => fst (fst ln)) out'
    = filter (fun t => (t mod 100 =? 0)%Z) l.
Proof.
  intros Htotal. revert st out.
  induction l as [|t l IH]; intros st out.
  - exists st, []. split; [simpl; now rewrite app_nil_r | reflexivity].
  - cbn [for_each filter]. unfold round at 1.
    destruct (Htotal (f t) st) as [E [s' Hs']]. rewrite Hs'. cbn [bind].
    destruct (t mod 100 =? 0)%Z; cbn [bind].
    + destruct (IH s' (out ++ [(t, E, occupations_of s')])) as [st' [out' [Hrun Hout]]].
      exists st', ((t, E, occupations_of s') :: out').
      split; [rewrite Hrun; now rewrite <- app_assoc|].
      simpl. now rewrite Hout.
    + destruct (IH s' out) as [st' [out' [Hrun Hout]]].
      exists st', out'. split; assumption.
Qed.

(** X15.  The printing cadence: when [T_i] is not zero and the step
    engine always returns, the annealing cell returns, and the lines it
    prints are those of the steps [t] in [[0, N)] with [t % 100 == 0], in
    order. *)
Theorem anneal_prints_every_100
        (pow : Q -> Q -> Q) (State : Type) (mc_step : Q -> State -> result (Q * State))
        (occupations_of : State -> list bool) (T_i T_f : Q) (N : nat) (udmis0 : State) :
  ~ (T_i == 0)%Q ->
  (forall T s, exists E s', mc_step T s = Ok (E, s')) ->
  exists st out,
    anneal pow mc_step occupations_of T_i T_f N udmis0 = Ok (st, out) /\
    map (fun ln : line => fst (fst ln)) out = printed_steps N.
Proof.
  intros HT Htotal.
  destruct (temperatures_spec pow T_f N HT) as [T [HTs Hget]].
  destruct (@rounds_print State mc_step occupations_of (temperature pow T_i T_f N)
              (range 0 (Z.of_nat N)) udmis0 [] Htotal) as [st [out [Hrun Hout]]].
  exists st, out. split; [|exact Hout].
  unfold anneal. rewrite HTs. cbn [bind].
  cbn [app] in Hrun. etransitivity; [|exact Hrun].
  apply for_each_ext. intros t acc Ht.
  rewrite (range_shift 0) in Ht. apply in_map_iff in Ht.
  destruct Ht as [k [<- Hk]]. apply in_seq in Hk.
  rewrite Hget by lia. reflexivity.
Qed.

Lemma anneal_prints_every_100_witness :
  exists st out,
    anneal (fun b e => b ^ Qfloor e)%Q recording_step (fun _ => []) 100 0.01 250 []
    = Ok (st, out) /\
    map (fun ln : line => fst (fst ln)) out = printed_steps 250.
Proof.
  apply (@anneal_prints_every_100 (fun b e => b ^ Qfloor e)%Q (list Q)
           recording_step (fun _ => []) 100 0.01 250 []).
  - unfold Qeq. simpl. lia.
  - intros T s. unfold recording_step. eexists. eexists. reflexivity.
Defined.
